(** * Live file sync: plan building and plan execution

    A shallow embedding of [pkg/skaffold/sync/sync.go] together with the
    properties its specification states about it.

    Conventions of the embedding:
    - a Go result pair [(T, error)] is a Rocq pair whose second component is
      an [option error]; [None] is Go's [nil] error;
    - a nilable map or pointer is an [option]; [None] is Go's [nil];
    - a slice is a [list]; a nil slice and an empty slice are both [[]]
      (the code only ever takes [len] of them or ranges over them);
    - [syncMap], a [map[string][]string], is a [gmap string (list string)];
    - collaborators that touch the outside world (image inspection, the
      cluster client, remote commands) thread an abstract [World]. *)

From Stdlib Require Import ZArith Ascii String.
From stdpp Require Import gmap strings list.

Local Open Scope string_scope.
Local Open Scope list_scope.

(** ** Go errors *)

(** [errors.New] / [fmt.Errorf] build a leaf, [errors.Wrap] / [errors.Wrapf]
    (github.com/pkg/errors) put a message in front of a cause. *)
Inductive error : Type :=
| errors_New (msg : string)
| errors_Wrap (cause : error) (msg : string).

(** The [Error()] method: a wrapped error prints as [msg: cause]. *)
Fixpoint Error (e : error) : string :=
  match e with
  | errors_New msg => msg
  | errors_Wrap cause msg => msg +:+ ": " +:+ Error cause
  end.

(** ** The parts of Go's standard library the package calls

    Modelled for a POSIX host ([os.PathSeparator] is ['/']) and for byte
    strings (every byte is taken as one rune). *)

Module strings.

Fixpoint drop (n : nat) (s : string) : string :=
  match n, s with
  | S n', String _ s' => drop n' s'
  | _, _ => s
  end.

(** [strings.HasPrefix(s, prefix)] *)
Definition HasPrefix (s prefix : string) : bool := String.prefix prefix s.

(** [strings.TrimPrefix(s, prefix)]: [s] without the leading [prefix], and
    [s] itself when it does not start with [prefix]. *)
Definition TrimPrefix (s prefix : string) : string :=
  if HasPrefix s prefix then drop (String.length prefix) s else s.

(** [strings.Split(s, sep)] for a one-byte separator: the elements between
    the separators, empty ones included. *)
Fixpoint SplitAcc (sep : ascii) (s : string) (cur : string) : list string :=
  match s with
  | EmptyString => [String.rev cur]
  | String c s' =>
      if Ascii.eqb c sep then String.rev cur :: SplitAcc sep s' EmptyString
      else SplitAcc sep s' (String c cur)
  end.

Definition Split (s : string) (sep : ascii) : list string := SplitAcc sep s EmptyString.

(** [strings.Join(elems, sep)] *)
Fixpoint Join (elems : list string) (sep : string) : string :=
  match elems with
  | [] => ""
  | [e] => e
  | e :: rest => e +:+ sep +:+ Join rest sep
  end.

End strings.

Module path.

(** [path.IsAbs]: the path begins with a slash. *)
Definition IsAbs (p : string) : bool :=
  match p with
  | String c _ => Ascii.eqb c "/"
  | EmptyString => false
  end.

(** One step of [Clean]'s scan, on whole path elements. [out] holds the
    elements written so far, last one first.  An empty element and [.]
    are dropped; [..] removes the last real element, is kept in front of a
    relative path when there is nothing to remove, and is dropped at the
    root. *)
Definition CleanStep (rooted : bool) (out : list string) (elem : string) : list string :=
  if String.eqb elem "" then out
  else if String.eqb elem "." then out
  else if String.eqb elem ".." then
    match out with
    | top :: out' => if String.eqb top ".." then elem :: out else out'
    | [] => if rooted then out else [elem]
    end
  else elem :: out.

(** [path.Clean]: the shortest path equivalent to [p] by purely lexical
    processing; the empty path becomes [.]. *)
Definition Clean (p : string) : string :=
  if String.eqb p "" then "."
  else
    let rooted := IsAbs p in
    let out := fold_left (CleanStep rooted) (strings.Split p "/") [] in
    let body := strings.Join (rev out) "/" in
    if rooted then "/" +:+ body
    else if String.eqb body "" then "." else body.

(** [path.Join]: empty elements are ignored, the rest is joined with
    slashes and cleaned; no non-empty element gives the empty string. *)
Definition Join (elem : list string) : string :=
  match List.filter (fun e => negb (String.eqb e "")) elem with
  | [] => ""
  | elems => Clean (strings.Join elems "/")
  end.

End path.

Module filepath.

(** On a POSIX host both conversions are the identity. *)
Definition FromSlash (p : string) : string := p.
Definition ToSlash (p : string) : string := p.

(** [filepath.Clean] is [path.Clean] there. *)
Definition Clean (p : string) : string := path.Clean p.

(** The path elements the scan of [Rel] steps through: those of a cleaned
    path, none for the empty path, the single empty one for the root. *)
Definition elems (p : string) : list string :=
  if String.eqb p "" then []
  else
    let l := strings.Split p "/" in
    match rev l with
    | last :: front => if String.eqb last "" then rev front else l
    | [] => l
    end.

(** The first loop of [Rel]: skip the leading elements both paths share. *)
Fixpoint skipCommon (base targ : list string) : list string * list string :=
  match base, targ with
  | b :: base', t :: targ' =>
      if String.eqb t b then skipCommon base' targ' else (base, targ)
  | _, _ => (base, targ)
  end.

(** [filepath.Rel(basepath, targpath)]: a relative path that is lexically
    equivalent to [targpath] when joined to [basepath]; an error when one
    is absolute and the other is not, or when [basepath] would have to be
    left through a [..] it still contains. *)
Definition Rel (basepath targpath : string) : string * option error :=
  let base := Clean basepath in
  let targ := Clean targpath in
  if String.eqb targ base then (".", None)
  else
    let base := if String.eqb base "." then "" else base in
    let cant :=
      errors_New ("Rel: can't make " +:+ targpath +:+ " relative to " +:+ basepath) in
    if negb (Bool.eqb (path.IsAbs base) (path.IsAbs targ)) then ("", Some cant)
    else
      let '(b, t) := skipCommon (elems base) (elems targ) in
      match b, t with
      | [], _ => (strings.Join t "/", None)
      | b0 :: b', [] => (strings.Join (".." :: map (fun _ => "..") b') "/", None)
      | b0 :: b', _ :: _ =>
          if String.eqb b0 ".." then ("", Some cant)
          else (strings.Join (".." :: map (fun _ => "..") b') "/"
                +:+ "/" +:+ strings.Join t "/", None)
      end.

End filepath.

(** ** The glob matcher

    [github.com/bmatcuk/doublestar] is an external library.  The general
    results below hold for any matcher; this model of its first major
    version serves the worked examples. *)

Module doublestar.

Definition ErrBadPattern : error := errors_New "syntax error in pattern".

(** [indexRuneWithEscaping]: the index of the first [r] that does not
    directly follow a backslash. *)
Fixpoint indexFrom (r : ascii) (s : string) (escaped : bool) (i : nat) : option nat :=
  match s with
  | EmptyString => None
  | String c s' =>
      if Ascii.eqb c r && negb escaped then Some i
      else indexFrom r s' (Ascii.eqb c "\") (S i)
  end.

Definition indexRuneWithEscaping (s : string) (r : ascii) : option nat :=
  indexFrom r s false 0.

(** [splitPathOnSeparator]: split at every separator that does not
    directly follow a backslash. *)
Fixpoint splitFrom (sep : ascii) (s : string) (escaped : bool) (cur : string) : list string :=
  match s with
  | EmptyString => [String.rev cur]
  | String c s' =>
      if Ascii.eqb c sep && negb escaped then String.rev cur :: splitFrom sep s' false EmptyString
      else splitFrom sep s' (Ascii.eqb c "\") (String c cur)
  end.

Definition splitPathOnSeparator (p : string) (separator : ascii) : list string :=
  splitFrom separator p false EmptyString.

Definition take (n : nat) (s : string) : string := String.substring 0 n s.

Definition rune_le (a b : ascii) : bool := (nat_of_ascii a <=? nat_of_ascii b)%nat.

(** One step of the scan of a character class: an optional backslash in
    front of a rune. [None] is a malformed class. *)
Definition classRune (c : ascii) (rest : list ascii) : option (ascii * list ascii) :=
  if Ascii.eqb c "\" then
    match rest with
    | [] => None
    | c' :: rest' => Some (c', rest')
    end
  else Some (c, rest).

(** The scan of the runes between the brackets (after a leading [^]):
    whether [nameRune] lies in one of the ranges; [None] for a malformed
    class. *)
Fixpoint classLoop (fuel : nat) (classRunes : list ascii) (nameRune : ascii) (matchClass : bool)
    : option bool :=
  match fuel, classRunes with
  | _, [] => Some matchClass
  | O, _ => None
  | S fuel, low :: rest =>
      if Ascii.eqb low "-" then None
      else
        match classRune low rest with
        | None => None
        | Some (low, rest1) =>
            match rest1 with
            | dash :: rest2 =>
                if Ascii.eqb dash "-" then
                  match rest2 with
                  | [] => None
                  | high :: rest3 =>
                      if Ascii.eqb high "-" then None
                      else
                        match classRune high rest3 with
                        | None => None
                        | Some (high, rest4) =>
                            classLoop fuel rest4 nameRune
                              (matchClass || (rune_le low nameRune && rune_le nameRune high))
                        end
                  end
                else
                  classLoop fuel rest1 nameRune
                    (matchClass || (rune_le low nameRune && rune_le nameRune low))
            | [] => Some (matchClass || (rune_le low nameRune && rune_le nameRune low))
            end
        end
  end.

(** The non-empty suffixes of a name, longest first. *)
Fixpoint suffixes (name : string) : list string :=
  match name with
  | EmptyString => []
  | String _ name' => name :: suffixes name'
  end.

(** The checks [matchComponent] makes before it starts scanning; [None]
    when it goes on to scan. *)
Definition baseCases (pattern name : string) : option (bool * option error) :=
  if String.eqb pattern "" && String.eqb name "" then Some (true, None)
  else if String.eqb pattern "" then Some (false, None)
  else if String.eqb name "" && negb (String.eqb pattern "*") then Some (false, None)
  else None.

(** The scan of [matchComponent] from the current positions in [pattern]
    and [name]. *)
Fixpoint matchScan (fuel : nat) (pattern name : string) : bool * option error :=
  match fuel with
  | O => (false, None)
  | S fuel =>
      let matchComponent pattern name :=
        match baseCases pattern name with
        | Some r => r
        | None => matchScan fuel pattern name
        end in
      match pattern, name with
      | String patRune pattern1, String nameRune name1 =>
          if Ascii.eqb patRune "\" then
            match pattern1 with
            | EmptyString => (false, Some ErrBadPattern)
            | String patRune pattern2 =>
                if Ascii.eqb patRune nameRune then matchScan fuel pattern2 name1
                else (false, None)
            end
          else if Ascii.eqb patRune "*" then
            if String.eqb pattern1 "" then (true, None)
            else (existsb (fun n => fst (matchComponent pattern1 n)) (suffixes name), None)
          else if Ascii.eqb patRune "[" then
            match indexRuneWithEscaping pattern1 "]" with
            | None => (false, Some ErrBadPattern)
            | Some endClass =>
                match list_ascii_of_string (take endClass pattern1) with
                | [] => (false, Some ErrBadPattern)
                | c0 :: classRunes1 =>
                    let negated := Ascii.eqb c0 "^" in
                    let classRunes := if negated then classRunes1 else c0 :: classRunes1 in
                    match classLoop (S (length classRunes)) classRunes nameRune false with
                    | None => (false, Some ErrBadPattern)
                    | Some matchClass =>
                        if Bool.eqb matchClass negated then (false, None)
                        else matchScan fuel (strings.drop (S endClass) pattern1) name1
                    end
                end
            end
          else if Ascii.eqb patRune "{" then
            match indexRuneWithEscaping pattern1 "}" with
            | None => (false, Some ErrBadPattern)
            | Some endOptions =>
                let rest := strings.drop (S endOptions) pattern1 in
                (fix tryOptions (options : list string) : bool * option error :=
                   match options with
                   | [] => (false, None)
                   | o :: options1 =>
                       let '(m, e) := matchComponent (o +:+ rest) name in
                       match e with
                       | Some e => (false, Some e)
                       | None => if m then (true, None) else tryOptions options1
                       end
                   end) (splitPathOnSeparator (take endOptions pattern1) ",")
            end
          else if Ascii.eqb patRune "?" || Ascii.eqb patRune nameRune then
            matchScan fuel pattern1 name1
          else (false, None)
      | _, _ =>
          if String.eqb pattern "" && String.eqb name "" then (true, None)
          else if String.eqb name "" && String.eqb pattern "*" || String.eqb pattern "**"
          then (true, None)
          else (false, None)
      end
  end.

Definition matchComponent (pattern name : string) : bool * option error :=
  match baseCases pattern name with
  | Some r => r
  | None => matchScan (S (String.length pattern + String.length name)) pattern name
  end.

(** The loop of [doMatching] over the remaining components. *)
Fixpoint doMatchingLoop (patternComponents nameComponents : list string) {struct patternComponents}
    : bool * option error :=
  match patternComponents, nameComponents with
  | p :: patternComponents1, n :: nameComponents1 =>
      if String.eqb p "**" then
        match patternComponents1 with
        | [] => (true, None)
        | _ :: _ =>
            ((fix try (names : list string) : bool :=
                match names with
                | [] => false
                | _ :: names1 => fst (doMatchingLoop patternComponents1 names) || try names1
                end) nameComponents, None)
        end
      else
        let '(matched, err) := matchComponent p n in
        if negb matched || bool_decide (is_Some err) then (matched, err)
        else doMatchingLoop patternComponents1 nameComponents1
  | _, _ =>
      (bool_decide (patternComponents = []) && bool_decide (nameComponents = []), None)
  end.

Definition doMatching (patternComponents nameComponents : list string) : bool * option error :=
  match patternComponents, nameComponents with
  | [], [] => (true, None)
  | [], _ | _, [] => (false, None)
  | _, _ => doMatchingLoop patternComponents nameComponents
  end.

(** [doublestar.PathMatch] on a POSIX host. *)
Definition PathMatch (pattern name : string) : bool * option error :=
  doMatching (splitPathOnSeparator pattern "/") (splitPathOnSeparator name "/").

End doublestar.

(** ** Data model *)

Module build.

(** Modelled from the spec: the declaration of [build.Artifact] is not part
    of the sources at hand; a BuildArtifact is [{imageName, tag}]. *)
Record Artifact : Type := { ImageName : string; Tag : string }.

End build.

Module latest.

(** Modelled from the spec: the schema declarations are not part of the
    sources at hand.  A SyncRule is [{sourcePattern, destination,
    stripPrefix}], read by the code as [Src], [Dest] and [Strip]. *)
Record SyncRule : Type := { Src : string; Dest : string; Strip : string }.

(** The type [latest.Sync] of the field [Sync] below; [a.Sync.Manual] holds
    the declared rules, in declaration order. *)
Record Sync_t : Type := { Manual : list SyncRule }.

(** The fields of [latest.Artifact] the package reads; [Sync] is a pointer
    and may be nil. *)
Record Artifact : Type := {
  ImageName : string;
  Workspace : string;
  Sync : option Sync_t
}.

End latest.

Module watch.

(** Modelled from the spec: a ChangeEventBatch is [{added, modified,
    deleted}]; its derived [HasChanged] flag is taken as a parameter
    below. *)
Record Events : Type := {
  Added : list string;
  Modified : list string;
  Deleted : list string
}.

End watch.

Module v1.

(** What the executor reads of a pod and of its containers. *)
Record Container : Type := { Name : string; Image : string }.
Record Pod : Type := { PodName : string; Spec_Containers : list Container }.

End v1.

(** [type syncMap map[string][]string] *)
Abbreviation syncMap := (gmap string (list string)).

Record Item : Type := {
  Image : string;
  Copy : syncMap;
  Delete : syncMap
}.

(** [%v] of a [[]build.Artifact], for the two string fields modelled
    above: the structs in braces, fields and elements separated by one
    space, the slice in brackets. *)
Definition fmt_v_Artifact (b : build.Artifact) : string :=
  "{" +:+ build.ImageName b +:+ " " +:+ build.Tag b +:+ "}".

Definition fmt_v_builds (builds : list build.Artifact) : string :=
  "[" +:+ strings.Join (map fmt_v_Artifact builds) " " +:+ "]".

(** Go's [int] on a 64-bit host: [numSynced++] wraps around. *)
Definition int_incr (n : Z) : Z :=
  if (n =? 2 ^ 63 - 1)%Z then (- 2 ^ 63)%Z else (n + 1)%Z.

(** ** The package *)

(** [latestTag] does not depend on any collaborator. *)
Fixpoint latestTag (image : string) (builds : list build.Artifact) : string :=
  match builds with
  | [] => ""
  | build :: builds' =>
      if String.eqb (build.ImageName build) image then build.Tag build
      else latestTag image builds'
  end.

(** [build.MergeWithPreviousBuilds], which keeps the list of builds that
    [latestTag] is asked about.  First loop: [updatedBuilds] records the
    image names of [builds]. *)
Fixpoint updatedBuilds_from (builds : list build.Artifact) (updatedBuilds : gmap string bool)
    : gmap string bool :=
  match builds with
  | [] => updatedBuilds
  | build :: builds' =>
      updatedBuilds_from builds' (<[build.ImageName build := true]> updatedBuilds)
  end.

(** Second loop: the artifacts of [previous] whose image name is not
    recorded are appended to [merged]; a name that is not a key of the map
    reads as [false]. *)
Fixpoint mergePrevious (updatedBuilds : gmap string bool) (previous : list build.Artifact)
    (merged : list build.Artifact) : list build.Artifact :=
  match previous with
  | [] => merged
  | b :: previous' =>
      if negb (default false (updatedBuilds !! build.ImageName b))
      then mergePrevious updatedBuilds previous' (merged ++ [b])
      else mergePrevious updatedBuilds previous' merged
  end.

Definition MergeWithPreviousBuilds (builds previous : list build.Artifact)
    : list build.Artifact :=
  let updatedBuilds := updatedBuilds_from builds ∅ in
  let merged := [] ++ builds in
  mergePrevious updatedBuilds previous merged.

(** Some artifact of [builds] is for [image]. *)
Definition builtFor (image : string) (builds : list build.Artifact) : bool :=
  existsb (λ b, String.eqb (build.ImageName b) image) builds.

(** External code, left abstract: the general results below hold whatever
    an instance does.  The two library functions are pure; the
    collaborators that reach outside the process act on a [World]. *)
Class Externals : Type := {
  (** [filepath.Rel(basepath, targpath)] *)
  filepath_Rel : string -> string -> string * option error;
  (** [doublestar.PathMatch(pattern, name)] *)
  doublestar_PathMatch : string -> string -> bool * option error;
  (** [watch.Events.HasChanged()] *)
  HasChanged : watch.Events -> bool;
  World : Type;
  (** [WorkingDir], the package variable initialised to
      [docker.RetrieveWorkingDir] *)
  WorkingDir : string -> gmap string bool -> World -> World * (string * option error);
  (** [kubernetes.Client()] and [client.CoreV1().Pods(ns).List(...)] *)
  Client : Type;
  kubernetes_Client : World -> World * (Client * option error);
  Pods_List : Client -> string -> World -> World * (list v1.Pod * option error);
  (** [*exec.Cmd] and [util.RunCmdOut] *)
  Cmd : Type;
  util_RunCmdOut : Cmd -> World -> World * (string * option error);
  (** [context.Context] *)
  context_Context : Type
}.

Section Sync.

Context `{Externals}.

(** Lines 139 to 147 of [matchSyncRules]: the destination a matching rule
    [r] gives to [relPath]. *)
Definition destination (r : latest.SyncRule) (relPath containerWd : string) : string :=
  let wd := if negb (path.IsAbs (latest.Dest r)) then containerWd else "" in
  let subPath := strings.TrimPrefix (filepath.ToSlash relPath) (latest.Strip r) in
  path.Join [wd; latest.Dest r; subPath].

(** The loop of [matchSyncRules]; [dsts] is the slice built so far. *)
Fixpoint matchSyncRules_from (syncRules : list latest.SyncRule) (relPath containerWd : string)
    (dsts : list string) : list string * option error :=
  match syncRules with
  | [] => (dsts, None)
  | r :: syncRules' =>
      let '(matches, err) := doublestar_PathMatch (filepath.FromSlash (latest.Src r)) relPath in
      match err with
      | Some err => ([], Some (errors_Wrap err ("pattern error for " +:+ relPath)))
      | None =>
          if negb matches then matchSyncRules_from syncRules' relPath containerWd dsts
          else matchSyncRules_from syncRules' relPath containerWd
                 (dsts ++ [destination r relPath containerWd])
      end
  end.

Definition matchSyncRules (syncRules : list latest.SyncRule) (relPath containerWd : string)
    : list string * option error :=
  matchSyncRules_from syncRules relPath containerWd [].

(** The loop of [intersect]; [ret] is the map built so far. *)
Fixpoint intersect_from (contextWd containerWd : string) (syncRules : list latest.SyncRule)
    (files : list string) (ret : syncMap) : option syncMap * option error :=
  match files with
  | [] => (Some ret, None)
  | f :: files' =>
      let '(relPath, err) := filepath_Rel contextWd f in
      match err with
      | Some err =>
          (None, Some (errors_Wrap err
             ("changed file " +:+ f +:+ " can't be found relative to context " +:+ contextWd)))
      | None =>
          let '(dsts, err) := matchSyncRules syncRules relPath containerWd in
          match err with
          | Some err => (None, Some err)
          | None =>
              if (length dsts =? 0)%nat then (None, None)
              else intersect_from contextWd containerWd syncRules files' (<[f := dsts]> ret)
          end
      end
  end.

Definition intersect (contextWd containerWd : string) (syncRules : list latest.SyncRule)
    (files : list string) : option syncMap * option error :=
  intersect_from contextWd containerWd syncRules files ∅.

(** [a.Sync.Manual], read only where the guard of [NewItem] has found
    [a.Sync] not to be nil. *)
Definition manualRules (a : latest.Artifact) : list latest.SyncRule :=
  match latest.Sync a with
  | Some sync => latest.Manual sync
  | None => []
  end.

Definition NewItem (a : latest.Artifact) (e : watch.Events) (builds : list build.Artifact)
    (insecureRegistries : gmap string bool) (w : World)
    : World * (option Item * option error) :=
  if negb (HasChanged e)
     || match latest.Sync a with
        | None => true
        | Some sync => (length (latest.Manual sync) =? 0)%nat
        end
  then (w, (None, None))
  else
    let tag := latestTag (latest.ImageName a) builds in
    if String.eqb tag "" then
      (w, (None, Some (errors_New ("could not find latest tag for image "
                                   +:+ latest.ImageName a +:+ " in builds: "
                                   +:+ fmt_v_builds builds))))
    else
      let '(w, (containerWd, err)) := WorkingDir tag insecureRegistries w in
      match err with
      | Some err => (w, (None, Some (errors_Wrap err ("retrieving working dir for " +:+ tag))))
      | None =>
          let '(toCopy, err) :=
            intersect (latest.Workspace a) containerWd (manualRules a)
                      (watch.Added e ++ watch.Modified e) in
          match err with
          | Some err =>
              (w, (None, Some (errors_Wrap err "intersecting sync map and added, modified files")))
          | None =>
              let '(toDelete, err) :=
                intersect (latest.Workspace a) containerWd (manualRules a) (watch.Deleted e) in
              match err with
              | Some err =>
                  (w, (None, Some (errors_Wrap err "intersecting sync map and deleted files")))
              | None =>
                  match toCopy, toDelete with
                  | Some toCopy, Some toDelete =>
                      (w, (Some {| Image := tag; Copy := toCopy; Delete := toDelete |}, None))
                  | _, _ => (w, (None, None))
                  end
              end
          end
      end.

(** [Perform], innermost loop first.  Every loop carries the world and the
    counter [numSynced], and stops at the first error. *)
Fixpoint Perform_cmds (cmds : list Cmd) (numSynced : Z) (w : World)
    : World * (Z * option error) :=
  match cmds with
  | [] => (w, (numSynced, None))
  | cmd :: cmds' =>
      let '(w, (_, err)) := util_RunCmdOut cmd w in
      match err with
      | Some err => (w, (numSynced, Some err))
      | None => Perform_cmds cmds' (int_incr numSynced) w
      end
  end.

(** The type of the command generator [cmdFn]. *)
Definition CmdFn : Type :=
  context_Context -> v1.Pod -> v1.Container -> syncMap -> World -> World * list Cmd.

Fixpoint Perform_containers (ctx : context_Context) (image : string) (files : syncMap)
    (cmdFn : CmdFn) (p : v1.Pod) (containers : list v1.Container) (numSynced : Z)
    (w : World) : World * (Z * option error) :=
  match containers with
  | [] => (w, (numSynced, None))
  | c :: containers' =>
      if negb (String.eqb (v1.Image c) image)
      then Perform_containers ctx image files cmdFn p containers' numSynced w
      else
        let '(w, cmds) := cmdFn ctx p c files w in
        let '(w, (numSynced, err)) := Perform_cmds cmds numSynced w in
        match err with
        | Some err => (w, (numSynced, Some err))
        | None => Perform_containers ctx image files cmdFn p containers' numSynced w
        end
  end.

Fixpoint Perform_pods (ctx : context_Context) (image : string) (files : syncMap)
    (cmdFn : CmdFn) (pods : list v1.Pod) (numSynced : Z) (w : World)
    : World * (Z * option error) :=
  match pods with
  | [] => (w, (numSynced, None))
  | p :: pods' =>
      let '(w, (numSynced, err)) :=
        Perform_containers ctx image files cmdFn p (v1.Spec_Containers p) numSynced w in
      match err with
      | Some err => (w, (numSynced, Some err))
      | None => Perform_pods ctx image files cmdFn pods' numSynced w
      end
  end.

Fixpoint Perform_namespaces (ctx : context_Context) (image : string) (files : syncMap)
    (cmdFn : CmdFn) (client : Client) (namespaces : list string) (numSynced : Z)
    (w : World) : World * (Z * option error) :=
  match namespaces with
  | [] => (w, (numSynced, None))
  | ns :: namespaces' =>
      let '(w, (pods, err)) := Pods_List client ns w in
      match err with
      | Some err => (w, (numSynced, Some (errors_Wrap err ("getting pods for namespace " +:+ ns))))
      | None =>
          let '(w, (numSynced, err)) := Perform_pods ctx image files cmdFn pods numSynced w in
          match err with
          | Some err => (w, (numSynced, Some err))
          | None => Perform_namespaces ctx image files cmdFn client namespaces' numSynced w
          end
      end
  end.

Definition Perform (ctx : context_Context) (image : string) (files : syncMap)
    (cmdFn : CmdFn) (namespaces : list string) (w : World) : World * option error :=
  if (size files =? 0)%nat then (w, None)
  else
    let '(w, (client, err)) := kubernetes_Client w in
    match err with
    | Some err => (w, Some (errors_Wrap err "getting k8s client"))
    | None =>
        let '(w, (numSynced, err)) :=
          Perform_namespaces ctx image files cmdFn client namespaces 0%Z w in
        match err with
        | Some err => (w, Some err)
        | None =>
            if (numSynced =? 0)%Z then (w, Some (errors_New "didn't sync any files"))
            else (w, None)
        end
    end.

(** *** Vocabulary of the statements *)

(** [r] matches [relPath]: the test of line 130 gives [true] (and the loop
    goes on only when it gave no error). *)
Definition ruleMatches (relPath : string) (r : latest.SyncRule) : bool :=
  fst (doublestar_PathMatch (filepath.FromSlash (latest.Src r)) relPath).

(** The test of [relPath] against the pattern of [r] gives no error. *)
Definition ruleTests (relPath : string) (r : latest.SyncRule) : Prop :=
  snd (doublestar_PathMatch (filepath.FromSlash (latest.Src r)) relPath) = None.

(** The changed path [f] resolves: it can be taken relative to the
    workspace, and the rule matcher gives it at least one destination and
    no error. *)
Definition resolves (contextWd containerWd : string) (syncRules : list latest.SyncRule)
    (f : string) : Prop :=
  ∃ relPath dsts,
    filepath_Rel contextWd f = (relPath, None)
    ∧ matchSyncRules syncRules relPath containerWd = (dsts, None)
    ∧ dsts ≠ [].

(** The changed path [f] matches zero sync rules: it can be taken relative
    to the workspace and the rule matcher gives it no destination, and no
    error. *)
Definition matchesNoRule (contextWd containerWd : string) (syncRules : list latest.SyncRule)
    (f : string) : Prop :=
  ∃ relPath,
    filepath_Rel contextWd f = (relPath, None)
    ∧ matchSyncRules syncRules relPath containerWd = ([], None).

(** The container [c] of pod [p] contributes no operation: it runs another
    image than the target, or the command generator has nothing for it. *)
Definition idle (ctx : context_Context) (image : string) (files : syncMap) (cmdFn : CmdFn)
    (p : v1.Pod) (c : v1.Container) : Prop :=
  v1.Image c ≠ image ∨ ∀ w, snd (cmdFn ctx p c files w) = [].

(** The world once the commands have been run, one after the other. *)
Definition afterRunning (cmds : list Cmd) (w : World) : World :=
  fold_left (λ w cmd, fst (util_RunCmdOut cmd w)) cmds w.

(** The guard of [NewItem] lets the call through: the batch has changes and
    the artifact declares at least one rule. *)
Definition passesGuard (a : latest.Artifact) (e : watch.Events) : Prop :=
  HasChanged e = true ∧ manualRules a ≠ [].

End Sync.

(** ** A scripted instance for the worked examples

    The world is the log of the calls made to the collaborators, oldest
    first, so that an example can read off which calls happened and in
    which order. *)

Module Demo.

Inductive Call : Type :=
| CallWorkingDir (tag : string)
| CallClient
| CallPodsList (ns : string)
| CallCmdFn (pod container : string)
| CallRun (cmd : string).

(** A batch has changed when it lists at least one path. *)
Definition hasChanged (e : watch.Events) : bool :=
  negb ((length (watch.Added e) =? 0)%nat
        && (length (watch.Modified e) =? 0)%nat
        && (length (watch.Deleted e) =? 0)%nat).

Definition workingDir (tag : string) (insecureRegistries : gmap string bool) (w : list Call)
    : list Call * (string * option error) :=
  (w ++ [CallWorkingDir tag], ("/home/app", None)).

Definition client (w : list Call) : list Call * (unit * option error) :=
  (w ++ [CallClient], (tt, None)).

(** One pod in namespace [default], running the application container and
    a side car; no pod elsewhere. *)
Definition web : v1.Pod :=
  {| v1.PodName := "web";
     v1.Spec_Containers := [ {| v1.Name := "app"; v1.Image := "gcr.io/app:v1" |};
                             {| v1.Name := "proxy"; v1.Image := "envoy:1.9" |} ] |}.

Definition podsList (client : unit) (ns : string) (w : list Call)
    : list Call * (list v1.Pod * option error) :=
  (w ++ [CallPodsList ns], (if String.eqb ns "default" then [web] else [], None)).

(** A command is its name; the one called [rm] fails. *)
Definition runCmdOut (cmd : string) (w : list Call) : list Call * (string * option error) :=
  (w ++ [CallRun cmd],
   ("", if String.eqb cmd "rm" then Some (errors_New "exit status 1") else None)).

#[global] Instance externals : Externals := {|
  filepath_Rel := filepath.Rel;
  doublestar_PathMatch := doublestar.PathMatch;
  HasChanged := hasChanged;
  World := list Call;
  WorkingDir := workingDir;
  Client := unit;
  kubernetes_Client := client;
  Pods_List := podsList;
  Cmd := string;
  util_RunCmdOut := runCmdOut;
  context_Context := unit
|}.

(** A generator of three operations, the second of which fails. *)
Definition cmdFn (ctx : unit) (p : v1.Pod) (c : v1.Container) (files : syncMap) (w : list Call)
    : list Call * list string :=
  (w ++ [CallCmdFn (v1.PodName p) (v1.Name c)], ["tar"; "rm"; "chmod"]).

(** A generator of no operation at all. *)
Definition cmdFnNone (ctx : unit) (p : v1.Pod) (c : v1.Container) (files : syncMap)
    (w : list Call) : list Call * list string :=
  (w ++ [CallCmdFn (v1.PodName p) (v1.Name c)], []).

Definition jsRule : latest.SyncRule :=
  {| latest.Src := "src/**/*.js"; latest.Dest := "/app"; latest.Strip := "src/" |}.

Definition htmlRule : latest.SyncRule :=
  {| latest.Src := "**/*.html"; latest.Dest := "static"; latest.Strip := "" |}.

Definition anyRule : latest.SyncRule :=
  {| latest.Src := "src/**"; latest.Dest := "dist"; latest.Strip := "" |}.

Definition badRule : latest.SyncRule :=
  {| latest.Src := "lib/["; latest.Dest := "/lib"; latest.Strip := "" |}.

Definition artifact (rules : list latest.SyncRule) : latest.Artifact :=
  {| latest.ImageName := "gcr.io/app";
     latest.Workspace := "workspace";
     latest.Sync := Some {| latest.Manual := rules |} |}.

Definition builds : list build.Artifact :=
  [ {| build.ImageName := "gcr.io/other"; build.Tag := "gcr.io/other:v7" |};
    {| build.ImageName := "gcr.io/app"; build.Tag := "gcr.io/app:v1" |};
    {| build.ImageName := "gcr.io/app"; build.Tag := "gcr.io/app:v0" |} ].

Definition events (added modified deleted : list string) : watch.Events :=
  {| watch.Added := added; watch.Modified := modified; watch.Deleted := deleted |}.

End Demo.

(** ** More vocabulary *)

Section MoreVocabulary.

Context `{Externals}.

(** The destinations the rule matcher gives to the changed path [f]. *)
Definition destinationsOf (contextWd containerWd : string) (rules : list latest.SyncRule)
    (f : string) : list string :=
  fst (matchSyncRules rules (fst (filepath_Rel contextWd f)) containerWd).

End MoreVocabulary.

(** ** [skaffold init]: pairing builders with images

    From [pkg/skaffold/initializer/init.go].  An [InitBuilder] is an
    interface value; of its methods only [ConfiguredImage] is called here,
    and [docker.Docker] is the constructor of a builder from the path of
    its build file. *)

Module initializer.

Section Builders.

Variable InitBuilder : Type.
Variable ConfiguredImage : InitBuilder → string.
Variable docker_Docker : string → InitBuilder.

Record builderImagePair : Type := { Builder : InitBuilder; ImageName : string }.

(** The inner loop of [autoSelectBuilders]: [i] is the index of the next
    configuration and [matchingConfigIndex] the index found so far, [-1]
    for none.  A second match resets it to [-1] and leaves the loop. *)
Fixpoint matchingConfig (image : string) (builderConfigs : list InitBuilder) (i : Z)
    (matchingConfigIndex : Z) : Z :=
  match builderConfigs with
  | [] => matchingConfigIndex
  | config :: builderConfigs' =>
      if negb (String.eqb image (ConfiguredImage config))
      then matchingConfig image builderConfigs' (i + 1) matchingConfigIndex
      else if negb (matchingConfigIndex =? -1)%Z then (-1)%Z
      else matchingConfig image builderConfigs' (i + 1) i
  end.

(** The outer loop.  [None] stands for the panic of an index out of range
    in [builderConfigs[matchingConfigIndex]].  The function works on the
    slice it is given; what it returns is modelled, not what it leaves in
    the caller's array. *)
Fixpoint autoSelectBuilders_from (builderConfigs : list InitBuilder) (images : list string)
    (pairs : list builderImagePair) (unresolvedImages : list string)
    : option (list builderImagePair * list InitBuilder * list string) :=
  match images with
  | [] => Some (pairs, builderConfigs, unresolvedImages)
  | image :: images' =>
      let matchingConfigIndex := matchingConfig image builderConfigs 0 (-1) in
      if negb (matchingConfigIndex =? -1)%Z then
        match builderConfigs !! Z.to_nat matchingConfigIndex with
        | Some builder =>
            autoSelectBuilders_from
              (take (Z.to_nat matchingConfigIndex) builderConfigs
               ++ drop (Z.to_nat (matchingConfigIndex + 1)) builderConfigs)
              images'
              (pairs ++ [{| ImageName := image; Builder := builder |}])
              unresolvedImages
        | None => None
        end
      else autoSelectBuilders_from builderConfigs images' pairs (unresolvedImages ++ [image])
  end.

Definition autoSelectBuilders (builderConfigs : list InitBuilder) (images : list string)
    : option (list builderImagePair * list InitBuilder * list string) :=
  autoSelectBuilders_from builderConfigs images [] [].

(** The loop of [processCliArtifacts]; [len(parts) != 2] is read off the
    shape of [parts]. *)
Fixpoint processCliArtifacts_from (artifacts : list string) (pairs : list builderImagePair)
    : list builderImagePair * option error :=
  match artifacts with
  | [] => (pairs, None)
  | artifact :: artifacts' =>
      match strings.Split artifact "=" with
      | [part0; part1] =>
          processCliArtifacts_from artifacts'
            (pairs ++ [{| Builder := docker_Docker part0; ImageName := part1 |}])
      | _ => ([], Some (errors_New ("malformed artifact provided: " +:+ artifact)))
      end
  end.

Definition processCliArtifacts (artifacts : list string)
    : list builderImagePair * option error :=
  processCliArtifacts_from artifacts [].

(** The builders of [builderConfigs] that are configured for [image]. *)
Definition configuredFor (image : string) (builderConfigs : list InitBuilder)
    : list InitBuilder :=
  List.filter (λ config, String.eqb image (ConfiguredImage config)) builderConfigs.

(** The byte [c] does not occur in [s]. *)
Fixpoint lacks (c : ascii) (s : string) : bool :=
  match s with
  | EmptyString => true
  | String d s' => negb (Ascii.eqb d c) && lacks c s'
  end.

End Builders.

Arguments Builder {InitBuilder} _.
Arguments ImageName {InitBuilder} _.
Arguments matchingConfig {InitBuilder} _ _ _ _ _.
Arguments autoSelectBuilders_from {InitBuilder} _ _ _ _ _.
Arguments autoSelectBuilders {InitBuilder} _ _ _.
Arguments processCliArtifacts_from {InitBuilder} _ _ _.
Arguments processCliArtifacts {InitBuilder} _ _.
Arguments configuredFor {InitBuilder} _ _ _.

End initializer.

(** ** Two more scripted worlds

    They log calls as [Demo] does.  In [healthy] every collaborator
    succeeds.  In [outage] the working directory of an image cannot be
    retrieved and the pods of namespace [kube-system] cannot be listed. *)

Module Scenes.

Definition runCmdOut (cmd : string) (w : list Demo.Call)
    : list Demo.Call * (string * option error) :=
  (w ++ [Demo.CallRun cmd], ("", None)).

Definition workingDirFails (tag : string) (insecureRegistries : gmap string bool)
    (w : list Demo.Call) : list Demo.Call * (string * option error) :=
  (w ++ [Demo.CallWorkingDir tag], ("", Some (errors_New "manifest unknown"))).

Definition podsListForbidden (client : unit) (ns : string) (w : list Demo.Call)
    : list Demo.Call * (list v1.Pod * option error) :=
  (w ++ [Demo.CallPodsList ns],
   if String.eqb ns "kube-system" then ([], Some (errors_New "pods is forbidden"))
   else if String.eqb ns "default" then ([Demo.web], None)
   else ([], None)).

Definition healthy : Externals := {|
  filepath_Rel := filepath.Rel;
  doublestar_PathMatch := doublestar.PathMatch;
  HasChanged := Demo.hasChanged;
  World := list Demo.Call;
  WorkingDir := Demo.workingDir;
  Client := unit;
  kubernetes_Client := Demo.client;
  Pods_List := Demo.podsList;
  Cmd := string;
  util_RunCmdOut := runCmdOut;
  context_Context := unit
|}.

Definition outage : Externals := {|
  filepath_Rel := filepath.Rel;
  doublestar_PathMatch := doublestar.PathMatch;
  HasChanged := Demo.hasChanged;
  World := list Demo.Call;
  WorkingDir := workingDirFails;
  Client := unit;
  kubernetes_Client := Demo.client;
  Pods_List := podsListForbidden;
  Cmd := string;
  util_RunCmdOut := runCmdOut;
  context_Context := unit
|}.

(** A generator that agrees with [Demo.cmdFn] on the containers that run
    the application image and differs on the others. *)
Definition cmdFnAppOnly (ctx : unit) (p : v1.Pod) (c : v1.Container) (files : syncMap)
    (w : list Demo.Call) : list Demo.Call * list string :=
  if String.eqb (v1.Image c) "gcr.io/app:v1" then Demo.cmdFn ctx p c files w
  else (w ++ [Demo.CallCmdFn (v1.PodName p) (v1.Name c)], ["reboot"]).

(** Builders for [skaffold init], each the path of its build file with the
    image it is configured for (none for the last one), and the builder
    [docker.Docker] makes of a path. *)
Definition configuredImage (builder : string * string) : string := snd builder.

Definition docker (path : string) : string * string := (path, "").

Definition builders : list (string * string) :=
  [ ("web/Dockerfile", "gcr.io/app"); ("db/Dockerfile", "gcr.io/db");
    ("api/Dockerfile", "gcr.io/app"); ("Dockerfile", "") ].

End Scenes.

(** ** Proof steps shared by the worked examples *)

(** Closes an equation or a disequation between closed terms by
    evaluation. *)
Ltac evaluate :=
  lazymatch goal with
  | |- _ = _ => vm_compute; reflexivity
  | |- _ ≠ _ => vm_compute; discriminate
  end.

(** Closes [passesGuard] for a batch with changes and an artifact with rules. *)
Ltac passes := split; evaluate.

(** Closes [Forall (resolves ...)], [matchesNoRule] and the like on closed
    paths: takes the statement apart and evaluates the pieces. *)
Ltac resolve :=
  repeat lazymatch goal with
    | |- _ = _ => evaluate
    | |- _ ≠ _ => evaluate
    | |- _ ∧ _ => split
    | |- ∃ _, _ => eexists
    | |- Forall _ [] => apply List.Forall_nil
    | |- Forall _ (_ :: _) => apply List.Forall_cons
    | |- _ => progress unfold ruleTests, resolves, matchesNoRule, passesGuard
    end.

(** ** Properties *)

(** *** Checks of the library models *)

Example Clean_ex1 : path.Clean "a//b/./c/.." = "a/b". Proof. reflexivity. Qed.
Example Clean_ex2 : path.Clean "/../a/b/../../.." = "/". Proof. reflexivity. Qed.
Example Clean_ex3 : path.Clean "../../a/.." = "../..". Proof. reflexivity. Qed.
Example Clean_ex4 : path.Clean "a/.." = ".". Proof. reflexivity. Qed.
Example Join_ex1 : path.Join [""; "/app"; "a/b.js"] = "/app/a/b.js". Proof. reflexivity. Qed.
Example Join_ex2 : path.Join ["/home/app"; "dist"; "x/y.txt"] = "/home/app/dist/x/y.txt".
Proof. reflexivity. Qed.
Example Join_ex3 : path.Join [""; ""] = "". Proof. reflexivity. Qed.
Example TrimPrefix_ex1 : strings.TrimPrefix "src/a/b.js" "src/" = "a/b.js". Proof. reflexivity. Qed.
Example TrimPrefix_ex2 : strings.TrimPrefix "lib/a.js" "src/" = "lib/a.js". Proof. reflexivity. Qed.

Example Rel_ex1 : filepath.Rel "workspace" "workspace/src/a/b.js" = ("src/a/b.js", None).
Proof. reflexivity. Qed.
Example Rel_ex2 : filepath.Rel "/a" "/b/c" = ("../b/c", None). Proof. reflexivity. Qed.
Example Rel_ex3 : filepath.Rel "." "x/y" = ("x/y", None). Proof. reflexivity. Qed.
Example Rel_ex4 : filepath.Rel "a/b" "a" = ("..", None). Proof. reflexivity. Qed.
Example Rel_ex5 : snd (filepath.Rel "workspace" "/abs/b.js")
  = Some (errors_New "Rel: can't make /abs/b.js relative to workspace").
Proof. reflexivity. Qed.
Example Rel_ex6 : filepath.Rel "/" "/a/b" = ("a/b", None). Proof. reflexivity. Qed.
Example Rel_ex7 : filepath.Rel "a/b/c" "a/x/y" = ("../../x/y", None). Proof. reflexivity. Qed.
Example Rel_ex8 : filepath.Rel "a" "a" = (".", None). Proof. reflexivity. Qed.
Example PathMatch_ex1 : doublestar.PathMatch "src/**/*.js" "src/a/b.js" = (true, None).
Proof. vm_compute. reflexivity. Qed.
Example PathMatch_ex2 : doublestar.PathMatch "*.js" "a.txt" = (false, None).
Proof. vm_compute. reflexivity. Qed.
Example PathMatch_ex3 : doublestar.PathMatch "lib/[" "lib/x" = (false, Some doublestar.ErrBadPattern).
Proof. vm_compute. reflexivity. Qed.
Example PathMatch_ex4 : doublestar.PathMatch "lib/[" "a.txt" = (false, None).
Proof. vm_compute. reflexivity. Qed.
Example PathMatch_ex5 : doublestar.PathMatch "*.{js,html}" "index.html" = (true, None).
Proof. vm_compute. reflexivity. Qed.
Example PathMatch_ex6 : doublestar.PathMatch "[a-c]?.go" "bx.go" = (true, None).
Proof. vm_compute. reflexivity. Qed.
Example PathMatch_ex7 : doublestar.PathMatch "[^a-c]*" "bx.go" = (false, None).
Proof. vm_compute. reflexivity. Qed.
Example PathMatch_ex8 : doublestar.PathMatch "*.js" "src/a.js" = (false, None).
Proof. vm_compute. reflexivity. Qed.
Example PathMatch_ex9 : doublestar.PathMatch "**/*.js" "src/a/b.js" = (true, None).
Proof. vm_compute. reflexivity. Qed.
Example PathMatch_ex10 : doublestar.PathMatch "src/**" "src/a/b.js" = (true, None).
Proof. vm_compute. reflexivity. Qed.
Example PathMatch_ex11 : doublestar.PathMatch "a\" "ab" = (false, Some doublestar.ErrBadPattern).
Proof. vm_compute. reflexivity. Qed.

(** *** The library functions the rule matcher relies on *)

Lemma HasPrefix_app (p rest : string) : strings.HasPrefix (p +:+ rest) p = true.
Proof.
  unfold strings.HasPrefix. induction p as [|c p IH]; simpl.
  - by destruct rest.
  - destruct (ascii_dec c c); [exact IH | congruence].
Qed.

Lemma drop_app (p rest : string) : strings.drop (String.length p) (p +:+ rest) = rest.
Proof. induction p as [|c p IH]; simpl; [by destruct rest | exact IH]. Qed.

Lemma HasPrefix_inv (s p : string) :
  strings.HasPrefix s p = true → ∃ rest, s = p +:+ rest.
Proof.
  unfold strings.HasPrefix. revert s. induction p as [|c p IH]; intros s Hp.
  - by exists s.
  - destruct s as [|d s]; simpl in Hp; [done|].
    destruct (ascii_dec c d) as [->|]; [|done].
    destruct (IH s Hp) as [rest ->]. by exists rest.
Qed.

(** [strings.TrimPrefix] removes a literal prefix that is there... *)
Lemma TrimPrefix_app (p rest : string) : strings.TrimPrefix (p +:+ rest) p = rest.
Proof. unfold strings.TrimPrefix. by rewrite HasPrefix_app, drop_app. Qed.

(** ...and leaves alone a string that does not start with it. *)
Lemma TrimPrefix_no_prefix (s p : string) :
  (¬ ∃ rest, s = p +:+ rest) → strings.TrimPrefix s p = s.
Proof.
  intros Hno. unfold strings.TrimPrefix.
  destruct (strings.HasPrefix s p) eqn:Hp; [|done].
  destruct Hno. by apply HasPrefix_inv.
Qed.

Lemma latestTag_skip (image : string) (pre rest : list build.Artifact) :
  Forall (λ b, build.ImageName b ≠ image) pre →
  latestTag image (pre ++ rest) = latestTag image rest.
Proof.
  induction 1 as [|b pre Hb _ IH]; simpl; [done|].
  destruct (String.eqb_spec (build.ImageName b) image); [done | exact IH].
Qed.

Section Facts.

Context `{Externals}.

(** *** The rule matcher *)

Lemma matchSyncRules_from_tested rules relPath containerWd dsts :
  Forall (ruleTests relPath) rules →
  matchSyncRules_from rules relPath containerWd dsts
  = (dsts ++ map (λ r, destination r relPath containerWd)
                 (List.filter (ruleMatches relPath) rules), None).
Proof.
  intros Htests. revert dsts.
  induction Htests as [|r rules Hr _ IH]; intros dsts; simpl.
  - by rewrite app_nil_r.
  - unfold ruleTests in Hr. unfold ruleMatches at 1.
    destruct (doublestar_PathMatch _ relPath) as [matches err]; simpl in *; subst err.
    destruct matches; simpl; rewrite IH; [|done].
    by rewrite <- app_assoc.
Qed.

Lemma matchSyncRules_from_pattern_error tested r rest relPath containerWd dsts matches err :
  Forall (ruleTests relPath) tested →
  doublestar_PathMatch (filepath.FromSlash (latest.Src r)) relPath = (matches, Some err) →
  matchSyncRules_from (tested ++ r :: rest) relPath containerWd dsts
  = ([], Some (errors_Wrap err ("pattern error for " +:+ relPath))).
Proof.
  intros Htests Herr. revert dsts.
  induction Htests as [|r0 tested Hr0 _ IH]; intros dsts; simpl.
  - by rewrite Herr.
  - unfold ruleTests in Hr0.
    destruct (doublestar_PathMatch _ relPath) as [m0 e0]; simpl in *; subst e0.
    destruct m0; simpl; apply IH.
Qed.

(** *** The intersector *)

(** Changed paths that resolve are entered into the map and the loop goes
    on with the paths after them. *)
Lemma intersect_from_resolved contextWd containerWd rules done rest ret :
  Forall (resolves contextWd containerWd rules) done →
  ∃ ret', intersect_from contextWd containerWd rules (done ++ rest) ret
          = intersect_from contextWd containerWd rules rest ret'.
Proof.
  intros Hdone. revert ret.
  induction Hdone as [|f done (relPath & dsts & Hrel & Hm & Hne) _ IH]; intros ret; simpl.
  - by exists ret.
  - rewrite Hrel, Hm. destruct dsts as [|d dsts]; [done|]. simpl. apply IH.
Qed.

(** Every list of destinations the loop enters into the map is non-empty. *)
Lemma intersect_from_populated contextWd containerWd rules files ret m err :
  map_Forall (λ (_ : string) (dsts : list string), (1 ≤ length dsts)%nat) ret →
  intersect_from contextWd containerWd rules files ret = (Some m, err) →
  map_Forall (λ (_ : string) (dsts : list string), (1 ≤ length dsts)%nat) m.
Proof.
  revert ret. induction files as [|f files IH]; intros ret Hret; simpl.
  - by intros [= <- _].
  - destruct (filepath_Rel contextWd f) as [relPath [e|]]; [done|].
    destruct (matchSyncRules rules relPath containerWd) as [dsts [e|]]; [done|].
    destruct dsts as [|d dsts]; [done|]. simpl.
    apply IH. apply map_Forall_insert_2; [simpl; lia | done].
Qed.

(** A path that matches no rule, met after paths that all resolved, ends
    the intersection with the no-plan signal. *)
Lemma intersect_miss contextWd containerWd rules done f rest :
  Forall (resolves contextWd containerWd rules) done →
  matchesNoRule contextWd containerWd rules f →
  intersect contextWd containerWd rules (done ++ f :: rest) = (None, None).
Proof.
  intros Hdone (relPath & Hrel & Hm). unfold intersect.
  destruct (intersect_from_resolved contextWd containerWd rules done (f :: rest) ∅ Hdone)
    as [ret' ->].
  simpl. by rewrite Hrel, Hm.
Qed.

(** *** The plan builder *)

Lemma guard_passed a e :
  passesGuard a e →
  negb (HasChanged e)
  || match latest.Sync a with
     | None => true
     | Some sync => (length (latest.Manual sync) =? 0)%nat
     end = false.
Proof.
  intros [-> Hrules]. unfold manualRules in Hrules. simpl.
  destruct (latest.Sync a) as [sync|]; [|done].
  by destruct (latest.Manual sync).
Qed.

Lemma guard_stopped a e :
  HasChanged e = false ∨ manualRules a = [] →
  negb (HasChanged e)
  || match latest.Sync a with
     | None => true
     | Some sync => (length (latest.Manual sync) =? 0)%nat
     end = true.
Proof.
  intros [-> | Hrules]; [done|]. unfold manualRules in Hrules.
  destruct (latest.Sync a) as [sync|]; [rewrite Hrules|]; simpl; apply orb_true_r.
Qed.

(** What [NewItem] returns once the tag and the working directory are
    there, in terms of the two intersections. *)
Lemma NewItem_resolved a e builds regs w w' containerWd :
  passesGuard a e →
  latestTag (latest.ImageName a) builds ≠ "" →
  WorkingDir (latestTag (latest.ImageName a) builds) regs w = (w', (containerWd, None)) →
  NewItem a e builds regs w
  = let '(toCopy, errCopy) :=
      intersect (latest.Workspace a) containerWd (manualRules a)
                (watch.Added e ++ watch.Modified e) in
    let '(toDelete, errDelete) :=
      intersect (latest.Workspace a) containerWd (manualRules a) (watch.Deleted e) in
    match errCopy, errDelete with
    | Some err, _ =>
        (w', (None, Some (errors_Wrap err "intersecting sync map and added, modified files")))
    | None, Some err =>
        (w', (None, Some (errors_Wrap err "intersecting sync map and deleted files")))
    | None, None =>
        match toCopy, toDelete with
        | Some toCopy, Some toDelete =>
            (w', (Some {| Image := latestTag (latest.ImageName a) builds;
                          Copy := toCopy; Delete := toDelete |}, None))
        | _, _ => (w', (None, None))
        end
    end.
Proof.
  intros Hguard Htag Hwd. unfold NewItem. rewrite (guard_passed _ _ Hguard).
  destruct (String.eqb_spec (latestTag (latest.ImageName a) builds) ""); [done|].
  rewrite Hwd.
  destruct (intersect _ containerWd _ (watch.Added e ++ watch.Modified e)) as [toCopy [e1|]];
    destruct (intersect _ containerWd _ (watch.Deleted e)) as [toDelete [e2|]]; done.
Qed.

(** C3: when the batch has no change, or the artifact declares no manual
    sync rule (its [Sync] is nil or lists no rule), [NewItem] returns
    [(nil, nil)] and hands back the world it was given: whatever the
    collaborators are, none of them was called, and the build list was not
    consulted (any list, also one without the image, gives the same). *)
Theorem C3_guard_returns_nil_nil_untouched a e builds regs (w : World) :
  HasChanged e = false ∨ manualRules a = [] →
  NewItem a e builds regs w = (w, (None, None)).
Proof. intros Hstop. unfold NewItem. by rewrite (guard_stopped _ _ Hstop). Qed.

(** C4: [latestTag] returns the tag of the first build whose image name
    is the one asked for, and the empty string when no build has it; and
    when the tag [NewItem] resolves is empty, [NewItem] returns no plan and
    an error whose message starts with "could not find latest tag for
    image" followed by the image name. *)
Theorem C4_latestTag_first_match_or_error a e builds regs (w : World) :
  (∀ image pre b post,
      Forall (λ b', build.ImageName b' ≠ image) pre →
      build.ImageName b = image →
      latestTag image (pre ++ b :: post) = build.Tag b)
  ∧ (∀ image bs, Forall (λ b', build.ImageName b' ≠ image) bs → latestTag image bs = "")
  ∧ (passesGuard a e →
     latestTag (latest.ImageName a) builds = "" →
     ∃ err, NewItem a e builds regs w = (w, (None, Some err))
            ∧ Error err = "could not find latest tag for image " +:+ latest.ImageName a
                          +:+ " in builds: " +:+ fmt_v_builds builds).
Proof.
  split; [|split].
  - intros image pre b post Hpre Hb. rewrite latestTag_skip by done. simpl.
    by destruct (String.eqb_spec (build.ImageName b) image).
  - intros image bs Hbs. rewrite <- (app_nil_r bs). by rewrite latestTag_skip.
  - intros Hguard Htag. eexists. split.
    + unfold NewItem. rewrite (guard_passed _ _ Hguard), Htag. reflexivity.
    + reflexivity.
Qed.

(** C5: a rule that matches gives the path one destination: the rule's
    [Dest], with the container working directory in front exactly when
    [Dest] is not absolute, joined with the relative path from which the
    literal prefix [Strip] has been removed (the whole relative path when
    it does not start with [Strip]).  In particular the rule
    [{Src: "src/**/*.js", Dest: "/app", Strip: "src/"}] sends ["src/a/b.js"]
    to ["/app/a/b.js"] in a container whose working directory is
    ["/home/app"]. *)
Theorem C5_destination_of_a_matching_rule r relPath containerWd :
  doublestar_PathMatch (filepath.FromSlash (latest.Src r)) relPath = (true, None) →
  doublestar_PathMatch "src/**/*.js" "src/a/b.js" = (true, None) →
  (∃ subPath,
      (∀ rest, relPath = latest.Strip r +:+ rest → subPath = rest)
      ∧ ((¬ ∃ rest, relPath = latest.Strip r +:+ rest) → subPath = relPath)
      ∧ matchSyncRules [r] relPath containerWd
        = ([path.Join [if path.IsAbs (latest.Dest r) then "" else containerWd;
                       latest.Dest r; subPath]], None))
  ∧ matchSyncRules
      [{| latest.Src := "src/**/*.js"; latest.Dest := "/app"; latest.Strip := "src/" |}]
      "src/a/b.js" "/home/app"
    = (["/app/a/b.js"], None).
Proof.
  intros Hr Hex. split.
  - exists (strings.TrimPrefix (filepath.ToSlash relPath) (latest.Strip r)).
    split; [|split].
    + intros rest ->. apply TrimPrefix_app.
    + apply TrimPrefix_no_prefix.
    + unfold matchSyncRules. simpl. rewrite Hr. simpl. unfold destination.
      by destruct (path.IsAbs (latest.Dest r)).
  - unfold matchSyncRules. simpl. unfold filepath.FromSlash. rewrite Hex. reflexivity.
Qed.

(** C6: when every rule can be tested against the path, the destinations
    are those of the matching rules, one for each, in declaration order:
    as many entries as rules match, nothing merged or removed; a path that
    matches two rules gets exactly their two destinations, in the order the
    rules are declared. *)
Theorem C6_one_destination_per_matching_rule_in_order rules relPath containerWd :
  Forall (ruleTests relPath) rules →
  let matching := List.filter (ruleMatches relPath) rules in
  matchSyncRules rules relPath containerWd
  = (map (λ r, destination r relPath containerWd) matching, None)
  ∧ length (fst (matchSyncRules rules relPath containerWd)) = length matching
  ∧ (∀ r1 r2, matching = [r1; r2] →
       fst (matchSyncRules rules relPath containerWd)
       = [destination r1 relPath containerWd; destination r2 relPath containerWd]).
Proof.
  intros Htests matching.
  assert (Heq : matchSyncRules rules relPath containerWd
                = (map (λ r, destination r relPath containerWd) matching, None)).
  { unfold matchSyncRules. by rewrite matchSyncRules_from_tested. }
  rewrite Heq. simpl. split; [done|]. split.
  - by rewrite length_map.
  - by intros r1 r2 ->.
Qed.


(** C1, as amended: a changed path that matches no rule, met after paths
    of the same list that all resolved, makes that intersection return the
    [(nil, nil)] signal whatever the paths after it would have done; and
    [NewItem], once the guard is passed and the tag and the working
    directory are resolved, returns [(nil, nil)] for the whole batch when
    the other intersection returns no error. *)
Theorem C1_miss_gives_no_plan_unless_error a e builds regs (w w' : World)
    containerWd done f rest :
  passesGuard a e →
  latestTag (latest.ImageName a) builds ≠ "" →
  WorkingDir (latestTag (latest.ImageName a) builds) regs w = (w', (containerWd, None)) →
  Forall (resolves (latest.Workspace a) containerWd (manualRules a)) done →
  matchesNoRule (latest.Workspace a) containerWd (manualRules a) f →
  (watch.Added e ++ watch.Modified e = done ++ f :: rest
   ∧ snd (intersect (latest.Workspace a) containerWd (manualRules a) (watch.Deleted e)) = None)
  ∨ (watch.Deleted e = done ++ f :: rest
     ∧ snd (intersect (latest.Workspace a) containerWd (manualRules a)
                      (watch.Added e ++ watch.Modified e)) = None) →
  intersect (latest.Workspace a) containerWd (manualRules a) (done ++ f :: rest) = (None, None)
  ∧ NewItem a e builds regs w = (w', (None, None)).
Proof.
  intros Hguard Htag Hwd Hdone Hmiss Hlists.
  pose proof (intersect_miss _ _ _ done f rest Hdone Hmiss) as Hsignal.
  split; [done|].
  rewrite (NewItem_resolved _ _ _ _ _ _ _ Hguard Htag Hwd).
  destruct Hlists as [[Hcopy Hdel] | [Hdel Hcopy]].
  - rewrite Hcopy, Hsignal.
    destruct (intersect _ _ _ (watch.Deleted e)) as [toDelete errDelete].
    simpl in Hdel. by subst errDelete.
  - rewrite Hdel, Hsignal.
    destruct (intersect _ _ _ (watch.Added e ++ watch.Modified e)) as [toCopy errCopy].
    simpl in Hcopy. subst errCopy. by destruct toCopy.
Qed.

(** C2: in every plan [NewItem] returns, each changed file that is a key
    of the copy map or of the delete map has at least one destination. *)
Theorem C2_returned_plan_is_fully_populated a e builds regs (w w' : World) item err :
  NewItem a e builds regs w = (w', (Some item, err)) →
  (∀ f dsts, Copy item !! f = Some dsts → (1 ≤ length dsts)%nat)
  ∧ (∀ f dsts, Delete item !! f = Some dsts → (1 ≤ length dsts)%nat).
Proof.
  unfold NewItem.
  destruct (negb (HasChanged e) || _); [done|].
  destruct (latestTag (latest.ImageName a) builds =? "")%string; [done|].
  destruct (WorkingDir _ regs w) as [w1 [containerWd [e0|]]]; [done|].
  destruct (intersect _ containerWd _ (watch.Added e ++ watch.Modified e))
    as [toCopy [e1|]] eqn:Hcopy; [done|].
  destruct (intersect _ containerWd _ (watch.Deleted e)) as [toDelete [e2|]] eqn:Hdel; [done|].
  destruct toCopy as [toCopy|]; [|done]. destruct toDelete as [toDelete|]; [|done].
  intros [= _ <- _]. simpl.
  split.
  - eapply intersect_from_populated; [apply map_Forall_empty | exact Hcopy].
  - eapply intersect_from_populated; [apply map_Forall_empty | exact Hdel].
Qed.

(** C7: when the test of a changed path against a rule's pattern fails
    (the rules before it were tested without error), the rule matcher
    returns that error wrapped with the path; the intersection that reached
    the path returns this very error and not the [(nil, nil)] signal; and
    [NewItem] returns an error to its caller. *)
Theorem C7_pattern_error_is_propagated a e builds regs (w w' : World) containerWd
    files done f rest relPath tested r untested matches err :
  passesGuard a e →
  latestTag (latest.ImageName a) builds ≠ "" →
  WorkingDir (latestTag (latest.ImageName a) builds) regs w = (w', (containerWd, None)) →
  files = watch.Added e ++ watch.Modified e ∨ files = watch.Deleted e →
  files = done ++ f :: rest →
  Forall (resolves (latest.Workspace a) containerWd (manualRules a)) done →
  filepath_Rel (latest.Workspace a) f = (relPath, None) →
  manualRules a = tested ++ r :: untested →
  Forall (ruleTests relPath) tested →
  doublestar_PathMatch (filepath.FromSlash (latest.Src r)) relPath = (matches, Some err) →
  let patternError := errors_Wrap err ("pattern error for " +:+ relPath) in
  matchSyncRules (manualRules a) relPath containerWd = ([], Some patternError)
  ∧ intersect (latest.Workspace a) containerWd (manualRules a) files = (None, Some patternError)
  ∧ ∃ cause msg,
      NewItem a e builds regs w = (w', (None, Some (errors_Wrap cause msg)))
      ∧ (files = watch.Added e ++ watch.Modified e → cause = patternError).
Proof.
  intros Hguard Htag Hwd Hlist Hfiles Hdone Hrel Hrules Htested Herr patternError.
  assert (Hmatch : matchSyncRules (manualRules a) relPath containerWd = ([], Some patternError)).
  { unfold matchSyncRules. rewrite Hrules.
    by apply matchSyncRules_from_pattern_error with (matches := matches). }
  assert (Hinter : intersect (latest.Workspace a) containerWd (manualRules a) files
                   = (None, Some patternError)).
  { unfold intersect. rewrite Hfiles.
    destruct (intersect_from_resolved _ _ _ done (f :: rest) ∅ Hdone) as [ret' ->].
    simpl. by rewrite Hrel, Hmatch. }
  split; [done|]. split; [done|].
  rewrite (NewItem_resolved _ _ _ _ _ _ _ Hguard Htag Hwd).
  destruct Hlist as [Hcopy | Hdel].
  - rewrite Hcopy in Hinter. rewrite Hinter.
    destruct (intersect _ _ _ (watch.Deleted e)) as [toDelete errDelete]. eauto.
  - rewrite Hdel in Hinter. rewrite Hinter.
    destruct (intersect _ _ _ (watch.Added e ++ watch.Modified e))
      as [toCopy [e1|]] eqn:Hcopy.
    + do 2 eexists. split; [done|]. intros Heq.
      rewrite <- Heq, Hdel, Hinter in Hcopy. congruence.
    + do 2 eexists. split; [done|]. intros Heq.
      rewrite <- Heq, Hdel, Hinter in Hcopy. congruence.
Qed.

(** C10: [NewItem] looks at the error of the deleted-set intersection
    before it looks for the [(nil, nil)] signal of either intersection.
    When the copy side gives the signal and the delete side an error,
    [NewItem] returns that error, wrapped; and when [NewItem] returns
    [(nil, nil)] past its guard, neither intersection gave an error. *)
Theorem C10_errors_are_checked_before_the_signal a e builds regs (w w' : World) containerWd :
  passesGuard a e →
  latestTag (latest.ImageName a) builds ≠ "" →
  WorkingDir (latestTag (latest.ImageName a) builds) regs w = (w', (containerWd, None)) →
  let toCopy :=
    intersect (latest.Workspace a) containerWd (manualRules a)
              (watch.Added e ++ watch.Modified e) in
  let toDelete :=
    intersect (latest.Workspace a) containerWd (manualRules a) (watch.Deleted e) in
  (∀ m err,
      toCopy = (None, None) → toDelete = (m, Some err) →
      NewItem a e builds regs w
      = (w', (None, Some (errors_Wrap err "intersecting sync map and deleted files"))))
  ∧ (NewItem a e builds regs w = (w', (None, None)) →
     snd toCopy = None ∧ snd toDelete = None).
Proof.
  intros Hguard Htag Hwd toCopy toDelete.
  rewrite (NewItem_resolved _ _ _ _ _ _ _ Hguard Htag Hwd).
  fold toCopy toDelete. split.
  - by intros m err -> ->.
  - destruct toCopy as [c [e1|]], toDelete as [d [e2|]]; simpl; try done.
Qed.

(** *** The executor *)

Lemma size_files_nonempty (files : syncMap) : files ≠ ∅ → (size files =? 0)%nat = false.
Proof.
  intros Hne. apply Nat.eqb_neq. intros Hsize. by apply map_size_empty_iff in Hsize.
Qed.

(** A loop that went through a first part of its list without error goes
    on with the rest, from the world and the counter it has reached. *)
Lemma Perform_cmds_app ran rest n (w w' : World) n' :
  Perform_cmds ran n w = (w', (n', None)) →
  Perform_cmds (ran ++ rest) n w = Perform_cmds rest n' w'.
Proof.
  revert n w. induction ran as [|cmd ran IH]; intros n w; simpl.
  - by intros [= -> ->].
  - destruct (util_RunCmdOut cmd w) as [w1 [out [e|]]]; [done | apply IH].
Qed.

Lemma Perform_cmds_afterRunning ran n (w w' : World) n' :
  Perform_cmds ran n w = (w', (n', None)) → w' = afterRunning ran w.
Proof.
  unfold afterRunning. revert n w. induction ran as [|cmd ran IH]; intros n w; simpl.
  - by intros [= -> _].
  - destruct (util_RunCmdOut cmd w) as [w1 [out [e|]]]; [done | apply IH].
Qed.

Lemma Perform_containers_app ctx image files (cmdFn : CmdFn) p done rest n (w w' : World) n' :
  Perform_containers ctx image files cmdFn p done n w = (w', (n', None)) →
  Perform_containers ctx image files cmdFn p (done ++ rest) n w
  = Perform_containers ctx image files cmdFn p rest n' w'.
Proof.
  revert n w. induction done as [|c done IH]; intros n w; simpl.
  - by intros [= -> ->].
  - destruct (negb (v1.Image c =? image)%string); [apply IH|].
    destruct (cmdFn ctx p c files w) as [w1 cmds].
    destruct (Perform_cmds cmds n w1) as [w2 [n2 [e|]]]; [done | apply IH].
Qed.

Lemma Perform_pods_app ctx image files (cmdFn : CmdFn) done rest n (w w' : World) n' :
  Perform_pods ctx image files cmdFn done n w = (w', (n', None)) →
  Perform_pods ctx image files cmdFn (done ++ rest) n w
  = Perform_pods ctx image files cmdFn rest n' w'.
Proof.
  revert n w. induction done as [|p done IH]; intros n w; simpl.
  - by intros [= -> ->].
  - destruct (Perform_containers ctx image files cmdFn p _ n w) as [w1 [n1 [e|]]];
      [done | apply IH].
Qed.

Lemma Perform_namespaces_app ctx image files (cmdFn : CmdFn) client done rest n
    (w w' : World) n' :
  Perform_namespaces ctx image files cmdFn client done n w = (w', (n', None)) →
  Perform_namespaces ctx image files cmdFn client (done ++ rest) n w
  = Perform_namespaces ctx image files cmdFn client rest n' w'.
Proof.
  revert n w. induction done as [|ns done IH]; intros n w; simpl.
  - by intros [= -> ->].
  - destruct (Pods_List client ns w) as [w1 [pods [e|]]]; [done|].
    destruct (Perform_pods ctx image files cmdFn pods n w1) as [w2 [n2 [e|]]];
      [done | apply IH].
Qed.

(** Containers that contribute no operation leave the counter as it is. *)
Lemma Perform_containers_idle ctx image files (cmdFn : CmdFn) p containers n (w : World) :
  Forall (idle ctx image files cmdFn p) containers →
  ∃ w', Perform_containers ctx image files cmdFn p containers n w = (w', (n, None)).
Proof.
  intros Hidle. revert w. induction Hidle as [|c containers Hc _ IH]; intros w; simpl.
  - by exists w.
  - destruct (String.eqb_spec (v1.Image c) image) as [Himage|]; simpl; [|apply IH].
    destruct Hc as [Hother | Hnone]; [done|].
    specialize (Hnone w). destruct (cmdFn ctx p c files w) as [w1 cmds].
    simpl in Hnone. subst cmds. simpl. apply IH.
Qed.

Lemma Perform_pods_idle ctx image files (cmdFn : CmdFn) pods n (w : World) :
  Forall (λ p, Forall (idle ctx image files cmdFn p) (v1.Spec_Containers p)) pods →
  ∃ w', Perform_pods ctx image files cmdFn pods n w = (w', (n, None)).
Proof.
  intros Hidle. revert w. induction Hidle as [|p pods Hp _ IH]; intros w; simpl.
  - by exists w.
  - destruct (Perform_containers_idle ctx image files cmdFn p _ n w Hp) as [w1 ->]. apply IH.
Qed.

Lemma Perform_namespaces_idle ctx image files (cmdFn : CmdFn) client namespaces n (w : World) :
  (∀ ns w0, ns ∈ namespaces →
     ∃ w0' pods,
       Pods_List client ns w0 = (w0', (pods, None))
       ∧ Forall (λ p, Forall (idle ctx image files cmdFn p) (v1.Spec_Containers p)) pods) →
  ∃ w', Perform_namespaces ctx image files cmdFn client namespaces n w = (w', (n, None)).
Proof.
  revert w. induction namespaces as [|ns namespaces IH]; intros w Hlisted; simpl.
  - by exists w.
  - destruct (Hlisted ns w) as (w1 & pods & -> & Hidle); [by left|].
    destruct (Perform_pods_idle ctx image files cmdFn pods n w1 Hidle) as [w2 ->].
    apply IH. intros ns' w0 Hin. apply Hlisted. by right.
Qed.

(** C8: for a non-empty sync map and a client that could be obtained, when
    the loops have gone through every namespace, pod and container without
    error and the counter is still zero, [Perform] returns the error
    "didn't sync any files"; this is what happens when every listed
    container either runs another image or gets no operation from the
    command generator. *)
Theorem C8_nothing_synced_is_an_error ctx image files (cmdFn : CmdFn) namespaces
    (w w1 : World) client :
  files ≠ ∅ →
  kubernetes_Client w = (w1, (client, None)) →
  (∀ w2,
      Perform_namespaces ctx image files cmdFn client namespaces 0%Z w1 = (w2, (0%Z, None)) →
      Perform ctx image files cmdFn namespaces w
      = (w2, Some (errors_New "didn't sync any files")))
  ∧ ((∀ ns w0, ns ∈ namespaces →
        ∃ w0' pods,
          Pods_List client ns w0 = (w0', (pods, None))
          ∧ Forall (λ p, Forall (idle ctx image files cmdFn p) (v1.Spec_Containers p)) pods) →
     ∃ w2, Perform ctx image files cmdFn namespaces w
           = (w2, Some (errors_New "didn't sync any files"))).
Proof.
  intros Hfiles Hclient.
  assert (Hzero : ∀ w2,
    Perform_namespaces ctx image files cmdFn client namespaces 0%Z w1 = (w2, (0%Z, None)) →
    Perform ctx image files cmdFn namespaces w
    = (w2, Some (errors_New "didn't sync any files"))).
  { intros w2 Hloops. unfold Perform.
    by rewrite (size_files_nonempty _ Hfiles), Hclient, Hloops. }
  split; [exact Hzero|].
  intros Hidle.
  destruct (Perform_namespaces_idle ctx image files cmdFn client namespaces 0%Z w1 Hidle)
    as [w2 Hloops].
  exists w2. by apply Hzero.
Qed.

(** C9: the operations of a container are run in the order the generator
    gave them, and the first one that fails ends the call: [Perform]
    returns the error of that operation as it is, in the world left by the
    operations run so far and by the failing one.  Nothing that was done
    before, for this container, for earlier containers, pods or namespaces,
    is undone, and the operations after the failing one are not run. *)
Theorem C9_first_failing_operation_aborts ctx image files (cmdFn : CmdFn) namespaces
    (w w1 : World) client
    nsDone ns nsRest (wa : World) na pods (wb : World)
    podsDone p podsRest (wc : World) nc
    csDone c csRest (wd : World) nd
    ran cmd notRun (we wf wg : World) nf out err :
  files ≠ ∅ →
  kubernetes_Client w = (w1, (client, None)) →
  namespaces = nsDone ++ ns :: nsRest →
  Perform_namespaces ctx image files cmdFn client nsDone 0%Z w1 = (wa, (na, None)) →
  Pods_List client ns wa = (wb, (pods, None)) →
  pods = podsDone ++ p :: podsRest →
  Perform_pods ctx image files cmdFn podsDone na wb = (wc, (nc, None)) →
  v1.Spec_Containers p = csDone ++ c :: csRest →
  Perform_containers ctx image files cmdFn p csDone nc wc = (wd, (nd, None)) →
  v1.Image c = image →
  cmdFn ctx p c files wd = (we, ran ++ cmd :: notRun) →
  Perform_cmds ran nd we = (wf, (nf, None)) →
  util_RunCmdOut cmd wf = (wg, (out, Some err)) →
  Perform ctx image files cmdFn namespaces w = (wg, Some err)
  ∧ wg = afterRunning (ran ++ [cmd]) we.
Proof.
  intros Hfiles Hclient -> HnsDone Hlist -> HpodsDone Hcs HcsDone Himage Hgen Hran Hfail.
  split.
  - unfold Perform. rewrite (size_files_nonempty _ Hfiles), Hclient.
    rewrite (Perform_namespaces_app _ _ _ _ _ _ _ _ _ _ _ HnsDone). simpl.
    rewrite Hlist.
    rewrite (Perform_pods_app _ _ _ _ _ _ _ _ _ _ HpodsDone). simpl.
    rewrite Hcs.
    rewrite (Perform_containers_app _ _ _ _ _ _ _ _ _ _ _ HcsDone). simpl.
    rewrite Himage, String.eqb_refl. simpl.
    rewrite Hgen.
    rewrite (Perform_cmds_app _ _ _ _ _ _ Hran). simpl.
    by rewrite Hfail.
  - unfold afterRunning. rewrite fold_left_app. simpl.
    apply Perform_cmds_afterRunning in Hran. unfold afterRunning in Hran.
    by rewrite <- Hran, Hfail.
Qed.

End Facts.

(** ** Worked examples on the scripted instance *)

(** The first example of the specification: ["workspace/src/a/b.js"] goes
    to ["/app/a/b.js"]. *)
Example intersect_example :
  intersect "workspace" "/home/app" [Demo.jsRule] ["workspace/src/a/b.js"]
  = (Some {[ "workspace/src/a/b.js" := ["/app/a/b.js"] ]}, None).
Proof. vm_compute. reflexivity. Qed.

(** The second one: a relative [Dest] is taken from the working directory
    of the container. *)
Example matchSyncRules_relative_dest :
  matchSyncRules [{| latest.Src := "**"; latest.Dest := "dist"; latest.Strip := "" |}]
                 "x/y.txt" "/home/app"
  = (["/home/app/dist/x/y.txt"], None).
Proof. vm_compute. reflexivity. Qed.

(** A [Strip] the path does not start with removes nothing. *)
Example matchSyncRules_no_strip :
  matchSyncRules [{| latest.Src := "**"; latest.Dest := "/app"; latest.Strip := "src/" |}]
                 "lib/a.js" "/home/app"
  = (["/app/lib/a.js"], None).
Proof. vm_compute. reflexivity. Qed.

(** C1 as stated fails: ["workspace/README.md"] matches no rule, yet the
    intersection of a list in which a path that cannot be made relative to
    the workspace comes first returns an error, and so does [NewItem] when
    such a path is among the deleted ones. *)
Lemma C1_counterexample :
  matchesNoRule "workspace" "/home/app" [Demo.jsRule] "workspace/README.md"
  ∧ intersect "workspace" "/home/app" [Demo.jsRule] ["/srv/b.js"; "workspace/README.md"]
    = (None, Some (errors_Wrap
                     (errors_New "Rel: can't make /srv/b.js relative to workspace")
                     "changed file /srv/b.js can't be found relative to context workspace"))
  ∧ intersect "workspace" "/home/app" [Demo.jsRule] ["workspace/README.md"] = (None, None)
  ∧ snd (NewItem (Demo.artifact [Demo.jsRule])
                 (Demo.events ["workspace/README.md"] [] ["/srv/b.js"])
                 Demo.builds ∅ [])
    = (None, Some (errors_Wrap
                     (errors_Wrap
                        (errors_New "Rel: can't make /srv/b.js relative to workspace")
                        "changed file /srv/b.js can't be found relative to context workspace")
                     "intersecting sync map and deleted files"))
  ∧ snd (NewItem (Demo.artifact [Demo.jsRule])
                 (Demo.events ["workspace/README.md"] [] ["/srv/b.js"])
                 Demo.builds ∅ [])
    ≠ (None, None).
Proof. resolve. Qed.

Lemma C1_witness :
  (passesGuard (Demo.artifact [Demo.jsRule])
               (Demo.events ["workspace/src/a/b.js"; "workspace/README.md"]
                            ["workspace/src/c.js"] []))
  ∧ matchesNoRule "workspace" "/home/app" [Demo.jsRule] "workspace/README.md"
  ∧ NewItem (Demo.artifact [Demo.jsRule])
            (Demo.events ["workspace/src/a/b.js"; "workspace/README.md"]
                         ["workspace/src/c.js"] [])
            Demo.builds ∅ []
    = ([Demo.CallWorkingDir "gcr.io/app:v1"], (None, None)).
Proof.
  split; [passes|]. split; [resolve|].
  apply (C1_miss_gives_no_plan_unless_error (H := Demo.externals)
           (Demo.artifact [Demo.jsRule])
           (Demo.events ["workspace/src/a/b.js"; "workspace/README.md"]
                        ["workspace/src/c.js"] [])
           Demo.builds ∅ [] [Demo.CallWorkingDir "gcr.io/app:v1"] "/home/app"
           ["workspace/src/a/b.js"] "workspace/README.md" ["workspace/src/c.js"]).
  - passes.
  - evaluate.
  - evaluate.
  - resolve.
  - resolve.
  - left. split; evaluate.
Defined.

Lemma C2_witness :
  ∃ w' item,
    NewItem (Demo.artifact [Demo.jsRule; Demo.htmlRule])
            (Demo.events ["workspace/src/a/b.js"] ["workspace/index.html"]
                         ["workspace/src/old.js"])
            Demo.builds ∅ []
    = (w', (Some item, None))
    ∧ (∀ f dsts, Copy item !! f = Some dsts → (1 ≤ length dsts)%nat)
    ∧ (∀ f dsts, Delete item !! f = Some dsts → (1 ≤ length dsts)%nat).
Proof.
  do 2 eexists. split; [vm_compute; reflexivity|].
  eapply (C2_returned_plan_is_fully_populated (H := Demo.externals)
            (Demo.artifact [Demo.jsRule; Demo.htmlRule])
            (Demo.events ["workspace/src/a/b.js"] ["workspace/index.html"]
                         ["workspace/src/old.js"])
            Demo.builds ∅ []).
  vm_compute. reflexivity.
Defined.

Lemma C3_witness :
  (HasChanged (Demo.events ["workspace/src/a/b.js"] [] []) = false
   ∨ manualRules (Demo.artifact []) = [])
  ∧ NewItem (Demo.artifact []) (Demo.events ["workspace/src/a/b.js"] [] []) [] ∅ []
    = ([], (None, None)).
Proof.
  split; [right; reflexivity|].
  apply (C3_guard_returns_nil_nil_untouched (H := Demo.externals)
           (Demo.artifact []) (Demo.events ["workspace/src/a/b.js"] [] []) [] ∅ []).
  right. reflexivity.
Defined.

Lemma C4_witness :
  passesGuard (Demo.artifact [Demo.jsRule]) (Demo.events ["workspace/src/a/b.js"] [] [])
  ∧ latestTag "gcr.io/app" [{| build.ImageName := "gcr.io/other"; build.Tag := "v7" |}] = ""
  ∧ ∃ err,
      NewItem (Demo.artifact [Demo.jsRule]) (Demo.events ["workspace/src/a/b.js"] [] [])
              [{| build.ImageName := "gcr.io/other"; build.Tag := "v7" |}] ∅ []
      = ([], (None, Some err))
      ∧ Error err
        = "could not find latest tag for image gcr.io/app in builds: [{gcr.io/other v7}]".
Proof.
  split; [passes|]. split; [reflexivity|].
  apply (C4_latestTag_first_match_or_error (H := Demo.externals)
           (Demo.artifact [Demo.jsRule]) (Demo.events ["workspace/src/a/b.js"] [] [])
           [{| build.ImageName := "gcr.io/other"; build.Tag := "v7" |}] ∅ []).
  - passes.
  - reflexivity.
Defined.

Lemma C5_witness :
  doublestar_PathMatch "src/**/*.js" "src/a/b.js" = (true, None)
  ∧ matchSyncRules [Demo.jsRule] "src/a/b.js" "/home/app" = (["/app/a/b.js"], None).
Proof.
  split; [evaluate|].
  apply (C5_destination_of_a_matching_rule (H := Demo.externals) Demo.jsRule "src/a/b.js" "/home/app"); evaluate.
Defined.

Lemma C6_witness :
  Forall (ruleTests "src/a/b.js") [Demo.htmlRule; Demo.jsRule; Demo.anyRule]
  ∧ List.filter (ruleMatches "src/a/b.js") [Demo.htmlRule; Demo.jsRule; Demo.anyRule]
    = [Demo.jsRule; Demo.anyRule]
  ∧ fst (matchSyncRules [Demo.htmlRule; Demo.jsRule; Demo.anyRule] "src/a/b.js" "/home/app")
    = [destination Demo.jsRule "src/a/b.js" "/home/app";
       destination Demo.anyRule "src/a/b.js" "/home/app"].
Proof.
  split; [resolve|]. split; [evaluate|].
  apply (C6_one_destination_per_matching_rule_in_order (H := Demo.externals)
           [Demo.htmlRule; Demo.jsRule; Demo.anyRule] "src/a/b.js" "/home/app").
  - resolve.
  - evaluate.
Defined.

Lemma C7_witness :
  doublestar_PathMatch (filepath.FromSlash (latest.Src Demo.badRule)) "lib/x"
  = (false, Some doublestar.ErrBadPattern)
  ∧ intersect "workspace" "/home/app" [Demo.jsRule; Demo.badRule]
              ["workspace/src/a/b.js"; "workspace/lib/x"]
    = (None, Some (errors_Wrap doublestar.ErrBadPattern "pattern error for lib/x")).
Proof.
  split; [evaluate|].
  apply (C7_pattern_error_is_propagated (H := Demo.externals)
           (Demo.artifact [Demo.jsRule; Demo.badRule])
           (Demo.events ["workspace/src/a/b.js"] ["workspace/lib/x"] [])
           Demo.builds ∅ [] [Demo.CallWorkingDir "gcr.io/app:v1"] "/home/app"
           ["workspace/src/a/b.js"; "workspace/lib/x"]
           ["workspace/src/a/b.js"] "workspace/lib/x" [] "lib/x"
           [Demo.jsRule] Demo.badRule [] false doublestar.ErrBadPattern).
  - passes.
  - evaluate.
  - evaluate.
  - left. reflexivity.
  - reflexivity.
  - resolve.
  - evaluate.
  - reflexivity.
  - resolve.
  - evaluate.
Defined.

Lemma C8_witness :
  ({[ "workspace/src/a/b.js" := ["/app/a/b.js"] ]} : syncMap) ≠ ∅
  ∧ Perform tt "gcr.io/app:v2" {[ "workspace/src/a/b.js" := ["/app/a/b.js"] ]} Demo.cmdFn
            ["kube-system"; "default"] []
    = ([Demo.CallClient; Demo.CallPodsList "kube-system"; Demo.CallPodsList "default"],
       Some (errors_New "didn't sync any files")).
Proof.
  split; [apply map_non_empty_singleton|].
  apply (C8_nothing_synced_is_an_error (H := Demo.externals) tt "gcr.io/app:v2"
           {[ "workspace/src/a/b.js" := ["/app/a/b.js"] ]} Demo.cmdFn
           ["kube-system"; "default"] [] [Demo.CallClient] tt).
  - apply map_non_empty_singleton.
  - reflexivity.
  - evaluate.
Defined.

Lemma C9_witness :
  util_RunCmdOut "rm" [Demo.CallClient; Demo.CallPodsList "kube-system";
                       Demo.CallPodsList "default"; Demo.CallCmdFn "web" "app";
                       Demo.CallRun "tar"]
  = ([Demo.CallClient; Demo.CallPodsList "kube-system"; Demo.CallPodsList "default";
      Demo.CallCmdFn "web" "app"; Demo.CallRun "tar"; Demo.CallRun "rm"],
     ("", Some (errors_New "exit status 1")))
  ∧ Perform tt "gcr.io/app:v1" {[ "workspace/src/a/b.js" := ["/app/a/b.js"] ]} Demo.cmdFn
            ["kube-system"; "default"] []
    = ([Demo.CallClient; Demo.CallPodsList "kube-system"; Demo.CallPodsList "default";
        Demo.CallCmdFn "web" "app"; Demo.CallRun "tar"; Demo.CallRun "rm"],
       Some (errors_New "exit status 1")).
Proof.
  split; [reflexivity|].
  apply (C9_first_failing_operation_aborts (H := Demo.externals) tt "gcr.io/app:v1"
           {[ "workspace/src/a/b.js" := ["/app/a/b.js"] ]} Demo.cmdFn
           ["kube-system"; "default"] [] [Demo.CallClient] tt
           ["kube-system"] "default" []
           [Demo.CallClient; Demo.CallPodsList "kube-system"] 0%Z [Demo.web]
           [Demo.CallClient; Demo.CallPodsList "kube-system"; Demo.CallPodsList "default"]
           [] Demo.web []
           [Demo.CallClient; Demo.CallPodsList "kube-system"; Demo.CallPodsList "default"] 0%Z
           [] {| v1.Name := "app"; v1.Image := "gcr.io/app:v1" |}
           [{| v1.Name := "proxy"; v1.Image := "envoy:1.9" |}]
           [Demo.CallClient; Demo.CallPodsList "kube-system"; Demo.CallPodsList "default"] 0%Z
           ["tar"] "rm" ["chmod"]
           [Demo.CallClient; Demo.CallPodsList "kube-system"; Demo.CallPodsList "default";
            Demo.CallCmdFn "web" "app"]
           [Demo.CallClient; Demo.CallPodsList "kube-system"; Demo.CallPodsList "default";
            Demo.CallCmdFn "web" "app"; Demo.CallRun "tar"]
           [Demo.CallClient; Demo.CallPodsList "kube-system"; Demo.CallPodsList "default";
            Demo.CallCmdFn "web" "app"; Demo.CallRun "tar"; Demo.CallRun "rm"]
           1%Z "" (errors_New "exit status 1")).
  - apply map_non_empty_singleton.
  - reflexivity.
  - reflexivity.
  - reflexivity.
  - reflexivity.
  - reflexivity.
  - reflexivity.
  - reflexivity.
  - reflexivity.
  - reflexivity.
  - reflexivity.
  - reflexivity.
  - reflexivity.
Defined.

Lemma C10_witness :
  intersect "workspace" "/home/app" [Demo.jsRule; Demo.badRule] ["workspace/README.md"]
  = (None, None)
  ∧ intersect "workspace" "/home/app" [Demo.jsRule; Demo.badRule] ["workspace/lib/x"]
    = (None, Some (errors_Wrap doublestar.ErrBadPattern "pattern error for lib/x"))
  ∧ NewItem (Demo.artifact [Demo.jsRule; Demo.badRule])
            (Demo.events ["workspace/README.md"] [] ["workspace/lib/x"])
            Demo.builds ∅ []
    = ([Demo.CallWorkingDir "gcr.io/app:v1"],
       (None, Some (errors_Wrap
                      (errors_Wrap doublestar.ErrBadPattern "pattern error for lib/x")
                      "intersecting sync map and deleted files"))).
Proof.
  split; [evaluate|]. split; [evaluate|].
  apply (C10_errors_are_checked_before_the_signal (H := Demo.externals)
           (Demo.artifact [Demo.jsRule; Demo.badRule])
           (Demo.events ["workspace/README.md"] [] ["workspace/lib/x"])
           Demo.builds ∅ [] [Demo.CallWorkingDir "gcr.io/app:v1"] "/home/app")
    with (m := None).
  - passes.
  - evaluate.
  - evaluate.
  - evaluate.
  - evaluate.
Defined.

(** ** Further properties of the package *)

(** *** Merging builds, and the tag resolver on the merged list *)

Lemma updatedBuilds_from_lookup builds (updatedBuilds : gmap string bool) image :
  default false (updatedBuilds_from builds updatedBuilds !! image)
  = builtFor image builds || default false (updatedBuilds !! image).
Proof.
  revert updatedBuilds. induction builds as [|b builds IH]; intros updatedBuilds; simpl; [done|].
  rewrite IH. destruct (String.eqb_spec (build.ImageName b) image) as [->|Hne].
  - rewrite lookup_insert_eq. simpl. by rewrite orb_true_r.
  - by rewrite lookup_insert_ne.
Qed.

Lemma mergePrevious_filter updatedBuilds previous merged :
  mergePrevious updatedBuilds previous merged
  = merged ++ List.filter (λ b, negb (default false (updatedBuilds !! build.ImageName b)))
                          previous.
Proof.
  revert merged. induction previous as [|b previous IH]; intros merged; simpl.
  - by rewrite app_nil_r.
  - destruct (negb _); rewrite IH; [by rewrite <- app_assoc | done].
Qed.

Lemma filter_ext_bool {A} (f g : A → bool) (l : list A) :
  (∀ x, f x = g x) → List.filter f l = List.filter g l.
Proof. intros Hfg. induction l as [|x l IH]; simpl; [done|]. by rewrite Hfg, IH. Qed.

Lemma MergeWithPreviousBuilds_filter builds previous :
  MergeWithPreviousBuilds builds previous
  = builds ++ List.filter (λ b, negb (builtFor (build.ImageName b) builds)) previous.
Proof.
  unfold MergeWithPreviousBuilds. rewrite mergePrevious_filter. simpl. f_equal.
  apply filter_ext_bool. intros b.
  by rewrite updatedBuilds_from_lookup, lookup_empty, orb_false_r.
Qed.

Lemma builtFor_true image builds :
  builtFor image builds = true ↔ ∃ b, b ∈ builds ∧ build.ImageName b = image.
Proof.
  unfold builtFor. rewrite existsb_exists. split.
  - intros (b & Hin & Heq). exists b. split; [by apply list_elem_of_In|].
    by apply String.eqb_eq.
  - intros (b & Hin & Heq). exists b. split; [by apply list_elem_of_In|].
    by apply String.eqb_eq.
Qed.

Lemma builtFor_false image builds :
  builtFor image builds = false ↔ Forall (λ b, build.ImageName b ≠ image) builds.
Proof.
  unfold builtFor. induction builds as [|b builds IH]; simpl.
  - split; [constructor | done].
  - destruct (String.eqb_spec (build.ImageName b) image) as [Heq|Hne]; simpl.
    + split; [done|]. by inversion 1.
    + rewrite IH. split; [by constructor | by inversion 1].
Qed.

Lemma latestTag_app_built image builds rest :
  builtFor image builds = true → latestTag image (builds ++ rest) = latestTag image builds.
Proof.
  induction builds as [|b builds IH]; simpl; [done|].
  destruct (String.eqb_spec (build.ImageName b) image); simpl; [done | exact IH].
Qed.

Lemma latestTag_filter image (keep : build.Artifact → bool) builds :
  (∀ b, build.ImageName b = image → keep b = true) →
  latestTag image (List.filter keep builds) = latestTag image builds.
Proof.
  intros Hkeep. induction builds as [|b builds IH]; simpl; [done|].
  destruct (String.eqb_spec (build.ImageName b) image) as [Heq|Hne].
  - rewrite (Hkeep b Heq). simpl. by rewrite <- Heq, String.eqb_refl.
  - destruct (keep b); simpl; [|exact IH].
    by destruct (String.eqb_spec (build.ImageName b) image).
Qed.

Lemma latestTag_found image builds :
  latestTag image builds ≠ "" →
  ∃ b, b ∈ builds ∧ build.ImageName b = image ∧ build.Tag b = latestTag image builds.
Proof.
  induction builds as [|b builds IH]; simpl; [done|].
  destruct (String.eqb_spec (build.ImageName b) image) as [Heq|Hne].
  - intros _. exists b. split; [by left | done].
  - intros Htag. destruct (IH Htag) as (b' & Hin & Hname & Htag').
    exists b'. split; [by right | done].
Qed.

(** X1: the merged list is [builds] followed, in their order, by the
    artifacts of [previous] whose image name no artifact of [builds] has. *)
Theorem MergeWithPreviousBuilds_keeps_builds_then_unbuilt_previous builds previous :
  MergeWithPreviousBuilds builds previous
  = builds ++ List.filter (λ b, negb (builtFor (build.ImageName b) builds)) previous.
Proof. apply MergeWithPreviousBuilds_filter. Qed.

(** X2: on the merged list the tag resolver answers with the new build of
    an image that was built again, and with the previous build of an image
    that was not. *)
Theorem latestTag_of_merged_builds image builds previous :
  ((∃ b, b ∈ builds ∧ build.ImageName b = image) →
   latestTag image (MergeWithPreviousBuilds builds previous) = latestTag image builds)
  ∧ (Forall (λ b, build.ImageName b ≠ image) builds →
     latestTag image (MergeWithPreviousBuilds builds previous) = latestTag image previous).
Proof.
  rewrite MergeWithPreviousBuilds_filter. split.
  - intros Hbuilt. apply latestTag_app_built. by apply builtFor_true.
  - intros Hnot. rewrite latestTag_skip by done.
    apply latestTag_filter. intros b <-. by apply builtFor_false in Hnot as ->.
Qed.

(** X3: merging never produces two artifacts for one image name when
    neither of the two lists has two. *)
Theorem MergeWithPreviousBuilds_keeps_image_names_distinct builds previous :
  NoDup (map build.ImageName builds) →
  NoDup (map build.ImageName previous) →
  NoDup (map build.ImageName (MergeWithPreviousBuilds builds previous)).
Proof.
  intros Hbuilds Hprevious. rewrite MergeWithPreviousBuilds_filter, map_app.
  apply NoDup_app. split; [done|]. split.
  - intros name Hin Hkept.
    apply list_elem_of_fmap in Hkept as (b & -> & Hb).
    apply list_elem_of_In, filter_In in Hb as [_ Hb].
    apply negb_true_iff, builtFor_false in Hb.
    apply list_elem_of_fmap in Hin as (b' & Heq & Hb').
    rewrite Forall_forall in Hb. by apply (Hb b' Hb').
  - clear Hbuilds. induction previous as [|b previous IH]; simpl; [constructor|].
    apply NoDup_cons in Hprevious as [Hb Hprevious].
    destruct (negb _); simpl; [|by apply IH].
    apply NoDup_cons. split; [|by apply IH].
    intros Hin. apply Hb.
    apply list_elem_of_fmap in Hin as (b' & Heq & Hb').
    apply list_elem_of_fmap. exists b'. split; [done|].
    apply list_elem_of_In, filter_In in Hb' as [Hb' _]. by apply list_elem_of_In.
Qed.

(** X4: merging the same builds a second time changes nothing, and
    merging with an empty list on either side gives the other list. *)
Theorem MergeWithPreviousBuilds_idempotent builds previous :
  MergeWithPreviousBuilds builds (MergeWithPreviousBuilds builds previous)
  = MergeWithPreviousBuilds builds previous
  ∧ MergeWithPreviousBuilds builds [] = builds
  ∧ MergeWithPreviousBuilds [] previous = previous.
Proof.
  rewrite !MergeWithPreviousBuilds_filter. split; [|split].
  - f_equal. rewrite List.filter_app.
    assert (Hnone : List.filter (λ b, negb (builtFor (build.ImageName b) builds)) builds = []).
    { assert (Hall : ∀ l, (∀ b, b ∈ l → b ∈ builds) →
                List.filter (λ b, negb (builtFor (build.ImageName b) builds)) l = []).
      { induction l as [|b l IH]; intros Hsub; simpl; [done|].
        assert (Hb : builtFor (build.ImageName b) builds = true).
        { apply builtFor_true. exists b. split; [apply Hsub; by left | done]. }
        rewrite Hb. simpl. apply IH. intros b' Hb'. apply Hsub. by right. }
      by apply Hall. }
    rewrite Hnone. simpl.
    induction previous as [|b previous IH]; simpl; [done|].
    destruct (negb (builtFor (build.ImageName b) builds)) eqn:Hb; simpl; [|exact IH].
    by rewrite Hb, IH.
  - simpl. by rewrite app_nil_r.
  - simpl. induction previous as [|b previous IH]; simpl; [done|]. by rewrite IH.
Qed.

(** X5: a tag the resolver returns is never made up: when it is not
    empty it is the tag of an artifact of the list that is for the image
    asked about. *)
Theorem latestTag_is_the_tag_of_a_build image builds :
  latestTag image builds ≠ "" →
  ∃ b, b ∈ builds ∧ build.ImageName b = image ∧ build.Tag b = latestTag image builds.
Proof. apply latestTag_found. Qed.

Section MoreFacts.

Context `{Externals}.

(** *** What an intersection that succeeds contains *)

Lemma resolves_destinationsOf contextWd containerWd rules f :
  resolves contextWd containerWd rules f →
  ∃ relPath,
    filepath_Rel contextWd f = (relPath, None)
    ∧ matchSyncRules rules relPath containerWd
      = (destinationsOf contextWd containerWd rules f, None)
    ∧ destinationsOf contextWd containerWd rules f ≠ [].
Proof.
  intros (relPath & dsts & Hrel & Hm & Hne). exists relPath.
  unfold destinationsOf. by rewrite Hrel; simpl; rewrite Hm.
Qed.

(** The loop of [intersect], read backwards from a map it returned. *)
Lemma intersect_from_inv contextWd containerWd rules files ret m err :
  intersect_from contextWd containerWd rules files ret = (Some m, err) →
  err = None
  ∧ Forall (resolves contextWd containerWd rules) files
  ∧ (∀ f, f ∈ files → m !! f = Some (destinationsOf contextWd containerWd rules f))
  ∧ (∀ f, f ∉ files → m !! f = ret !! f).
Proof.
  revert ret. induction files as [|f files IH]; intros ret; simpl.
  - intros [= <- <-]. split; [done|]. split; [constructor|]. split; [|done].
    intros f Hf. by apply elem_of_nil in Hf.
  - destruct (filepath_Rel contextWd f) as [relPath [e|]] eqn:Hrel; [done|].
    destruct (matchSyncRules rules relPath containerWd) as [dsts [e|]] eqn:Hm; [done|].
    destruct dsts as [|d dsts]; [done|]. simpl.
    intros Hrun. destruct (IH _ Hrun) as (-> & Hall & Hin & Hout).
    split; [done|]. split.
    { constructor; [|done]. exists relPath, (d :: dsts). by rewrite Hrel, Hm. }
    split.
    + intros g Hg. destruct (decide (g ∈ files)) as [Hfiles|Hfiles]; [by apply Hin|].
      apply elem_of_cons in Hg as [->|Hg]; [|done].
      rewrite (Hout f Hfiles), lookup_insert_eq. unfold destinationsOf. by rewrite Hrel; simpl; rewrite Hm.
    + intros g Hg. apply not_elem_of_cons in Hg as [Hne Hg].
      by rewrite (Hout g Hg), lookup_insert_ne.
Qed.

(** The loop of [intersect] goes through paths that all resolve. *)
Lemma intersect_from_all_resolved contextWd containerWd rules files ret :
  Forall (resolves contextWd containerWd rules) files →
  ∃ m, intersect_from contextWd containerWd rules files ret = (Some m, None).
Proof.
  intros Hall.
  destruct (intersect_from_resolved contextWd containerWd rules files [] ret Hall) as [ret' Heq].
  rewrite app_nil_r in Heq. rewrite Heq. by exists ret'.
Qed.

(** The keys of a returned map are the changed paths. *)
Lemma intersect_dom contextWd containerWd rules files m err :
  intersect contextWd containerWd rules files = (Some m, err) →
  err = None ∧ dom m = list_to_set files.
Proof.
  unfold intersect. intros Hrun.
  destruct (intersect_from_inv _ _ _ _ _ _ _ Hrun) as (-> & Hall & Hin & Hout).
  split; [done|].
  apply set_eq. intros f. rewrite elem_of_dom, elem_of_list_to_set.
  destruct (decide (f ∈ files)) as [Hf|Hf].
  - rewrite (Hin f Hf). split; [done | by eexists].
  - rewrite (Hout f Hf), lookup_empty. split; [by intros [? ?] | done].
Qed.

(** X6: a map is returned only without an error and only when every
    changed path resolved; its keys are exactly the changed paths, and each
    path is mapped to the destinations the rule matcher gives it, which are
    not empty.  No changed path is left out of a plan. *)
Theorem intersect_maps_exactly_the_changed_paths contextWd containerWd rules files m err :
  intersect contextWd containerWd rules files = (Some m, err) →
  err = None
  ∧ dom m = list_to_set files
  ∧ ∀ f, f ∈ files →
      ∃ relPath dsts,
        filepath_Rel contextWd f = (relPath, None)
        ∧ matchSyncRules rules relPath containerWd = (dsts, None)
        ∧ dsts ≠ []
        ∧ m !! f = Some dsts.
Proof.
  intros Hrun. destruct (intersect_dom _ _ _ _ _ _ Hrun) as [-> Hdom].
  unfold intersect in Hrun.
  destruct (intersect_from_inv _ _ _ _ _ _ _ Hrun) as (_ & Hall & Hin & Hout).
  split; [done|]. split; [done|].
  - intros f Hf. rewrite Forall_forall in Hall.
    destruct (resolves_destinationsOf _ _ _ _ (Hall f Hf)) as (relPath & Hrel & Hm & Hne).
    exists relPath, (destinationsOf contextWd containerWd rules f).
    split; [done|]. split; [done|]. split; [done|]. by apply Hin.
Qed.

(** X7: when every changed path resolves, the intersection returns a map,
    and the same map in whatever order the paths are reported (and however
    often one is repeated). *)
Theorem intersect_does_not_depend_on_the_order_of_the_paths contextWd containerWd rules
    files files' :
  Forall (resolves contextWd containerWd rules) files →
  (∀ f, f ∈ files ↔ f ∈ files') →
  ∃ m, intersect contextWd containerWd rules files = (Some m, None)
       ∧ intersect contextWd containerWd rules files' = (Some m, None).
Proof.
  intros Hall Hsame. unfold intersect.
  assert (Hall' : Forall (resolves contextWd containerWd rules) files').
  { rewrite Forall_forall in *. intros f Hf. apply Hall. by apply Hsame. }
  destruct (intersect_from_all_resolved _ _ _ _ ∅ Hall) as [m Hm].
  destruct (intersect_from_all_resolved _ _ _ _ ∅ Hall') as [m' Hm'].
  exists m. split; [done|]. rewrite Hm'. do 2 f_equal.
  destruct (intersect_from_inv _ _ _ _ _ _ _ Hm) as (_ & _ & Hin & Hout).
  destruct (intersect_from_inv _ _ _ _ _ _ _ Hm') as (_ & _ & Hin' & Hout').
  apply map_eq. intros f. destruct (decide (f ∈ files)) as [Hf|Hf].
  - rewrite (Hin f Hf). apply Hin'. by apply Hsame.
  - rewrite (Hout f Hf). apply Hout'. intros Hf'. apply Hf. by apply Hsame.
Qed.

(** X8: a changed path that cannot be taken relative to the workspace,
    met after paths that all resolved, ends the intersection with the error
    of [filepath.Rel], wrapped in a message that names the path and the
    workspace; no map is returned. *)
Theorem intersect_reports_a_path_outside_the_workspace contextWd containerWd rules
    done f rest relPath err :
  Forall (resolves contextWd containerWd rules) done →
  filepath_Rel contextWd f = (relPath, Some err) →
  ∃ wrapped,
    intersect contextWd containerWd rules (done ++ f :: rest) = (None, Some wrapped)
    ∧ Error wrapped
      = ("changed file " +:+ f +:+ " can't be found relative to context " +:+ contextWd)
        +:+ ": " +:+ Error err.
Proof.
  intros Hdone Hrel. unfold intersect.
  destruct (intersect_from_resolved _ _ _ done (f :: rest) ∅ Hdone) as [ret' ->].
  simpl. rewrite Hrel. eexists. split; [reflexivity|]. reflexivity.
Qed.

(** *** What a plan contains, and what building one does to the world *)

(** X9: a plan is never returned together with an error; it is returned
    only past the guard, its image is the latest tag of the artifact's
    image, which is not empty, the keys of its copy map are exactly the
    added and the modified paths, and the keys of its delete map exactly
    the deleted ones. *)
Theorem NewItem_plan_covers_the_whole_batch a e builds regs (w w' : World) item err :
  NewItem a e builds regs w = (w', (Some item, err)) →
  err = None
  ∧ passesGuard a e
  ∧ Image item = latestTag (latest.ImageName a) builds
  ∧ Image item ≠ ""
  ∧ dom (Copy item) = list_to_set (watch.Added e ++ watch.Modified e)
  ∧ dom (Delete item) = list_to_set (watch.Deleted e).
Proof.
  unfold NewItem.
  destruct (negb (HasChanged e) || _) eqn:Hguard; [done|].
  apply orb_false_iff in Hguard as [Hchanged Hrules].
  apply negb_false_iff in Hchanged.
  assert (Hpass : passesGuard a e).
  { split; [done|]. unfold manualRules.
    destruct (latest.Sync a) as [sync|]; [|done].
    by destruct (latest.Manual sync). }
  destruct (String.eqb_spec (latestTag (latest.ImageName a) builds) "") as [|Htag]; [done|].
  destruct (WorkingDir _ regs w) as [w1 [containerWd [e0|]]]; [done|].
  destruct (intersect _ containerWd _ (watch.Added e ++ watch.Modified e))
    as [toCopy [e1|]] eqn:Hcopy; [done|].
  destruct (intersect _ containerWd _ (watch.Deleted e)) as [toDelete [e2|]] eqn:Hdel; [done|].
  destruct toCopy as [toCopy|]; [|done]. destruct toDelete as [toDelete|]; [|done].
  intros [= _ <- <-]. simpl.
  destruct (intersect_dom _ _ _ _ _ _ Hcopy) as [_ Hdc].
  destruct (intersect_dom _ _ _ _ _ _ Hdel) as [_ Hdd].
  done.
Qed.



(** X11: when the working directory of the container cannot be
    retrieved, [NewItem] returns that error wrapped with the tag, whatever
    the changed paths and the rules are: no path is looked at. *)
Theorem NewItem_reports_a_failed_working_dir_lookup a e builds regs (w w' : World)
    containerWd err :
  passesGuard a e →
  latestTag (latest.ImageName a) builds ≠ "" →
  WorkingDir (latestTag (latest.ImageName a) builds) regs w = (w', (containerWd, Some err)) →
  NewItem a e builds regs w
  = (w', (None, Some (errors_Wrap err ("retrieving working dir for "
                                        +:+ latestTag (latest.ImageName a) builds)))).
Proof.
  intros Hguard Htag Hwd. unfold NewItem. rewrite (guard_passed _ _ Hguard).
  destruct (String.eqb_spec (latestTag (latest.ImageName a) builds) ""); [done|].
  by rewrite Hwd.
Qed.

(** *** The rule matcher *)

Lemma matchSyncRules_from_acc rules relPath containerWd dsts :
  matchSyncRules_from rules relPath containerWd dsts
  = match matchSyncRules_from rules relPath containerWd [] with
    | (more, None) => (dsts ++ more, None)
    | (_, Some err) => ([], Some err)
    end.
Proof.
  revert dsts. induction rules as [|r rules IH]; intros dsts; simpl.
  - by rewrite app_nil_r.
  - destruct (doublestar_PathMatch _ relPath) as [matches [e|]]; [done|].
    destruct matches; simpl; [|apply IH].
    rewrite (IH (dsts ++ _)), (IH [destination r relPath containerWd]).
    destruct (matchSyncRules_from rules relPath containerWd []) as [more [e|]]; [done|].
    by rewrite <- app_assoc.
Qed.

Lemma matchSyncRules_from_app rules1 rules2 relPath containerWd dsts :
  matchSyncRules_from (rules1 ++ rules2) relPath containerWd dsts
  = match matchSyncRules_from rules1 relPath containerWd dsts with
    | (dsts1, None) => matchSyncRules_from rules2 relPath containerWd dsts1
    | (_, Some err) => ([], Some err)
    end.
Proof.
  revert dsts. induction rules1 as [|r rules1 IH]; intros dsts; simpl; [done|].
  destruct (doublestar_PathMatch _ relPath) as [matches [e|]]; [done|].
  destruct matches; simpl; apply IH.
Qed.

(** X12: rule sets compose by concatenation.  The destinations of a path
    under two rule lists put one after the other are those under the first
    list followed by those under the second; an error of the first list is
    returned as it is and the second list is not tried, and an error of the
    second list discards the destinations of the first. *)
Theorem matchSyncRules_of_concatenated_rules rules1 rules2 relPath containerWd :
  matchSyncRules (rules1 ++ rules2) relPath containerWd
  = match matchSyncRules rules1 relPath containerWd with
    | (_, Some err) => ([], Some err)
    | (dsts1, None) =>
        match matchSyncRules rules2 relPath containerWd with
        | (_, Some err) => ([], Some err)
        | (dsts2, None) => (dsts1 ++ dsts2, None)
        end
    end.
Proof.
  unfold matchSyncRules. rewrite matchSyncRules_from_app.
  destruct (matchSyncRules_from rules1 relPath containerWd []) as [dsts1 [e|]]; [done|].
  apply matchSyncRules_from_acc.
Qed.

Lemma IsAbs_Join_head e rest :
  path.IsAbs e = true → path.IsAbs (strings.Join (e :: rest) "/") = true.
Proof.
  destruct e as [|c e]; [done|]. simpl. intros Hc. by destruct rest.
Qed.

Lemma IsAbs_Clean p : path.IsAbs p = true → path.IsAbs (path.Clean p) = true.
Proof.
  intros Habs. unfold path.Clean. rewrite Habs. by destruct p.
Qed.

Lemma IsAbs_destination r relPath containerWd :
  path.IsAbs containerWd = true ∨ path.IsAbs (latest.Dest r) = true →
  path.IsAbs (destination r relPath containerWd) = true.
Proof.
  intros Habs. unfold destination, path.Join.
  destruct (path.IsAbs (latest.Dest r)) eqn:Hdest; simpl.
  - destruct (latest.Dest r) as [|c dest] eqn:Heq; [done|]. simpl.
    apply IsAbs_Clean, IsAbs_Join_head. by rewrite <- Hdest.
  - destruct Habs as [Hwd|]; [|done].
    destruct containerWd as [|c wd]; [done|]. simpl.
    by apply IsAbs_Clean, IsAbs_Join_head.
Qed.

(** X13: in a container whose working directory is an absolute path,
    every destination the rule matcher returns is an absolute path, whether
    the rule's [Dest] is absolute or relative. *)
Theorem matchSyncRules_destinations_are_absolute rules relPath containerWd :
  path.IsAbs containerWd = true →
  Forall (λ dst, path.IsAbs dst = true) (fst (matchSyncRules rules relPath containerWd)).
Proof.
  intros Hwd. unfold matchSyncRules.
  assert (Hacc : ∀ dsts, Forall (λ dst, path.IsAbs dst = true) dsts →
            Forall (λ dst, path.IsAbs dst = true)
                   (fst (matchSyncRules_from rules relPath containerWd dsts))).
  { induction rules as [|r rules IH]; intros dsts Hdsts; simpl; [done|].
    destruct (doublestar_PathMatch _ relPath) as [matches [e|]]; [constructor|].
    destruct matches; simpl; apply IH; [|done].
    apply Forall_app. split; [done|]. constructor; [|constructor].
    apply IsAbs_destination. by left. }
  apply Hacc. constructor.
Qed.

(** *** The executor *)

(** X14: with an empty sync map [Perform] succeeds at once and hands the
    world back as it was, whatever the image, the generator and the
    namespaces: no client is asked for and no pod is listed. *)
Theorem Perform_on_an_empty_map_does_nothing ctx image (cmdFn : CmdFn) namespaces (w : World) :
  Perform ctx image ∅ cmdFn namespaces w = (w, None).
Proof. unfold Perform. by rewrite map_size_empty. Qed.

(** X15: the two ways cluster discovery can fail.  When no client can be
    had, [Perform] returns that error wrapped with "getting k8s client"
    and lists no pod.  When the pods of a namespace cannot be listed,
    after the namespaces before it were gone through without error,
    [Perform] returns that error wrapped with the name of the namespace, in
    the world the listing left: what was done in the earlier namespaces
    stays done and the later ones are not visited. *)
Theorem Perform_reports_discovery_errors ctx image files (cmdFn : CmdFn) namespaces
    (w w1 : World) client :
  files ≠ ∅ →
  (∀ err,
      kubernetes_Client w = (w1, (client, Some err)) →
      Perform ctx image files cmdFn namespaces w
      = (w1, Some (errors_Wrap err "getting k8s client")))
  ∧ (∀ nsDone ns nsRest (wa wb : World) na pods err,
        kubernetes_Client w = (w1, (client, None)) →
        namespaces = nsDone ++ ns :: nsRest →
        Perform_namespaces ctx image files cmdFn client nsDone 0%Z w1 = (wa, (na, None)) →
        Pods_List client ns wa = (wb, (pods, Some err)) →
        Perform ctx image files cmdFn namespaces w
        = (wb, Some (errors_Wrap err ("getting pods for namespace " +:+ ns)))).
Proof.
  intros Hfiles. split.
  - intros err Hclient. unfold Perform.
    by rewrite (size_files_nonempty _ Hfiles), Hclient.
  - intros nsDone ns nsRest wa wb na pods err Hclient -> HnsDone Hlist. unfold Perform.
    rewrite (size_files_nonempty _ Hfiles), Hclient.
    rewrite (Perform_namespaces_app _ _ _ _ _ _ _ _ _ _ _ HnsDone). simpl.
    by rewrite Hlist.
Qed.

Lemma Perform_cmds_all_succeed cmds n (w : World) :
  (∀ cmd w0, snd (snd (util_RunCmdOut cmd w0)) = None) →
  ∃ w' n', Perform_cmds cmds n w = (w', (n', None)).
Proof.
  intros Hrun. revert n w. induction cmds as [|cmd cmds IH]; intros n w; simpl.
  - by exists w, n.
  - specialize (Hrun cmd w). destruct (util_RunCmdOut cmd w) as [w1 [out err]].
    simpl in Hrun. subst err. apply IH.
Qed.

Lemma Perform_containers_all_succeed ctx image files (cmdFn : CmdFn) p containers n (w : World) :
  (∀ cmd w0, snd (snd (util_RunCmdOut cmd w0)) = None) →
  ∃ w' n', Perform_containers ctx image files cmdFn p containers n w = (w', (n', None)).
Proof.
  intros Hrun. revert n w. induction containers as [|c containers IH]; intros n w; simpl.
  - by exists w, n.
  - destruct (negb (v1.Image c =? image)%string); [apply IH|].
    destruct (cmdFn ctx p c files w) as [w1 cmds].
    destruct (Perform_cmds_all_succeed cmds n w1 Hrun) as (w2 & n2 & ->). apply IH.
Qed.

Lemma Perform_pods_all_succeed ctx image files (cmdFn : CmdFn) pods n (w : World) :
  (∀ cmd w0, snd (snd (util_RunCmdOut cmd w0)) = None) →
  ∃ w' n', Perform_pods ctx image files cmdFn pods n w = (w', (n', None)).
Proof.
  intros Hrun. revert n w. induction pods as [|p pods IH]; intros n w; simpl.
  - by exists w, n.
  - destruct (Perform_containers_all_succeed ctx image files cmdFn p
                (v1.Spec_Containers p) n w Hrun) as (w1 & n1 & ->).
    apply IH.
Qed.

Lemma Perform_namespaces_all_succeed ctx image files (cmdFn : CmdFn) client namespaces n
    (w : World) :
  (∀ ns w0, snd (snd (Pods_List client ns w0)) = None) →
  (∀ cmd w0, snd (snd (util_RunCmdOut cmd w0)) = None) →
  ∃ w' n', Perform_namespaces ctx image files cmdFn client namespaces n w = (w', (n', None)).
Proof.
  intros Hlist Hrun. revert n w.
  induction namespaces as [|ns namespaces IH]; intros n w; simpl.
  - by exists w, n.
  - specialize (Hlist ns w). destruct (Pods_List client ns w) as [w1 [pods err]].
    simpl in Hlist. subst err.
    destruct (Perform_pods_all_succeed ctx image files cmdFn pods n w1 Hrun) as (w2 & n2 & ->).
    apply IH.
Qed.

(** X16: [Perform] makes up no failure.  When the client is there, every
    listing succeeds and every command succeeds, it either succeeds or
    returns the one error of its own, "didn't sync any files". *)
Theorem Perform_fails_only_for_lack_of_effect ctx image files (cmdFn : CmdFn) namespaces
    (w w1 : World) client :
  kubernetes_Client w = (w1, (client, None)) →
  (∀ ns w0, snd (snd (Pods_List client ns w0)) = None) →
  (∀ cmd w0, snd (snd (util_RunCmdOut cmd w0)) = None) →
  ∃ w2, Perform ctx image files cmdFn namespaces w = (w2, None)
        ∨ Perform ctx image files cmdFn namespaces w
          = (w2, Some (errors_New "didn't sync any files")).
Proof.
  intros Hclient Hlist Hrun. unfold Perform.
  destruct (size files =? 0)%nat; [exists w; by left|].
  rewrite Hclient.
  destruct (Perform_namespaces_all_succeed ctx image files cmdFn client namespaces 0%Z w1
              Hlist Hrun) as (w2 & n2 & ->).
  exists w2. destruct (n2 =? 0)%Z; [by right | by left].
Qed.

Lemma int_incr_in_range (n : Z) : (n < 2 ^ 63 - 1)%Z → int_incr n = (n + 1)%Z.
Proof. intros Hn. unfold int_incr. destruct (Z.eqb_spec n (2 ^ 63 - 1)); [lia | done]. Qed.

(** X17: the counter counts the commands that succeeded.  Short of the
    overflow of Go's [int], the loop over the commands of a container
    raises it by the number of commands when none fails, and in any case
    leaves it between its old value and that sum. *)
Theorem Perform_cmds_counts_the_commands_run cmds n (w w' : World) n' err :
  (0 ≤ n)%Z →
  (n + Z.of_nat (length cmds) < 2 ^ 63)%Z →
  Perform_cmds cmds n w = (w', (n', err)) →
  (n ≤ n' ≤ n + Z.of_nat (length cmds))%Z
  ∧ (err = None → n' = (n + Z.of_nat (length cmds))%Z).
Proof.
  revert n w. induction cmds as [|cmd cmds IH]; intros n w Hn Hbound; simpl.
  - intros [= _ <- <-]. simpl. lia.
  - simpl in Hbound. destruct (util_RunCmdOut cmd w) as [w1 [out [e|]]].
    + intros [= _ <- <-]. split; [lia | done].
    + rewrite int_incr_in_range by lia. intros Hrun.
      destruct (IH (n + 1)%Z w1) as [Hrange Hall]; [lia | lia | done |].
      split; [lia|]. intros Herr. rewrite (Hall Herr). lia.
Qed.

Lemma Perform_containers_ext ctx image files (cmdFn1 cmdFn2 : CmdFn) p containers n (w : World) :
  (∀ p c w0, v1.Image c = image → cmdFn1 ctx p c files w0 = cmdFn2 ctx p c files w0) →
  Perform_containers ctx image files cmdFn1 p containers n w
  = Perform_containers ctx image files cmdFn2 p containers n w.
Proof.
  intros Hagree. revert n w. induction containers as [|c containers IH]; intros n w; simpl.
  - done.
  - destruct (String.eqb_spec (v1.Image c) image) as [Heq|Hne]; simpl; [|apply IH].
    rewrite (Hagree p c w Heq). destruct (cmdFn2 ctx p c files w) as [w1 cmds].
    destruct (Perform_cmds cmds n w1) as [w2 [n2 [e|]]]; [done | apply IH].
Qed.

Lemma Perform_pods_ext ctx image files (cmdFn1 cmdFn2 : CmdFn) pods n (w : World) :
  (∀ p c w0, v1.Image c = image → cmdFn1 ctx p c files w0 = cmdFn2 ctx p c files w0) →
  Perform_pods ctx image files cmdFn1 pods n w = Perform_pods ctx image files cmdFn2 pods n w.
Proof.
  intros Hagree. revert n w. induction pods as [|p pods IH]; intros n w; simpl; [done|].
  rewrite (Perform_containers_ext ctx image files cmdFn1 cmdFn2 p _ n w Hagree).
  destruct (Perform_containers ctx image files cmdFn2 p _ n w) as [w1 [n1 [e|]]];
    [done | apply IH].
Qed.

Lemma Perform_namespaces_ext ctx image files (cmdFn1 cmdFn2 : CmdFn) client namespaces n
    (w : World) :
  (∀ p c w0, v1.Image c = image → cmdFn1 ctx p c files w0 = cmdFn2 ctx p c files w0) →
  Perform_namespaces ctx image files cmdFn1 client namespaces n w
  = Perform_namespaces ctx image files cmdFn2 client namespaces n w.
Proof.
  intros Hagree. revert n w.
  induction namespaces as [|ns namespaces IH]; intros n w; simpl; [done|].
  destruct (Pods_List client ns w) as [w1 [pods [e|]]]; [done|].
  rewrite (Perform_pods_ext ctx image files cmdFn1 cmdFn2 pods n w1 Hagree).
  destruct (Perform_pods ctx image files cmdFn2 pods n w1) as [w2 [n2 [e|]]];
    [done | apply IH].
Qed.

(** X18: the generator is consulted for the containers that run the
    target image and for no other: two generators that agree on those
    containers make [Perform] do the same and return the same. *)
Theorem Perform_asks_the_generator_only_for_the_target_image ctx image files
    (cmdFn1 cmdFn2 : CmdFn) namespaces (w : World) :
  (∀ p c w0, v1.Image c = image → cmdFn1 ctx p c files w0 = cmdFn2 ctx p c files w0) →
  Perform ctx image files cmdFn1 namespaces w = Perform ctx image files cmdFn2 namespaces w.
Proof.
  intros Hagree. unfold Perform.
  destruct (size files =? 0)%nat; [done|].
  destruct (kubernetes_Client w) as [w1 [client [e|]]]; [done|].
  by rewrite (Perform_namespaces_ext ctx image files cmdFn1 cmdFn2 client namespaces 0%Z w1
                Hagree).
Qed.

End MoreFacts.

(** *** Pairing builders with images *)

Section BuilderFacts.

Context {InitBuilder : Type}.
Variable ConfiguredImage : InitBuilder → string.
Variable docker_Docker : string → InitBuilder.

Local Open Scope Z_scope.

(** Once a match is held, the inner loop keeps it when no other builder
    matches and gives up at the first one that does. *)
Lemma matchingConfig_held image builderConfigs i held :
  held ≠ -1 →
  initializer.matchingConfig ConfiguredImage image builderConfigs i held
  = match initializer.configuredFor ConfiguredImage image builderConfigs with
    | [] => held
    | _ :: _ => -1
    end.
Proof.
  intros Hheld. revert i. unfold initializer.configuredFor.
  induction builderConfigs as [|config configs IH]; intros i; simpl; [done|].
  destruct (String.eqb image (ConfiguredImage config)); simpl; [|apply IH].
  by destruct (Z.eqb_spec held (-1)).
Qed.

Lemma matchingConfig_found image builderConfigs i :
  0 ≤ i →
  initializer.matchingConfig ConfiguredImage image builderConfigs i (-1) ≠ -1 →
  ∃ builder,
    i ≤ initializer.matchingConfig ConfiguredImage image builderConfigs i (-1)
    ∧ builderConfigs
        !! Z.to_nat (initializer.matchingConfig ConfiguredImage image builderConfigs i (-1) - i)
      = Some builder
    ∧ initializer.configuredFor ConfiguredImage image builderConfigs = [builder].
Proof.
  revert i. unfold initializer.configuredFor.
  induction builderConfigs as [|config configs IH]; intros i Hi; simpl; [done|].
  destruct (String.eqb image (ConfiguredImage config)) eqn:Hmatch; simpl.
  - rewrite matchingConfig_held by lia. unfold initializer.configuredFor.
    destruct (List.filter _ configs); [|done].
    intros _. exists config. rewrite Z.sub_diag. split; [lia | done].
  - intros Hfound. destruct (IH (i + 1) ltac:(lia) Hfound) as (builder & Hle & Hat & Hone).
    exists builder. split; [lia|]. split; [|done].
    replace (Z.to_nat (initializer.matchingConfig ConfiguredImage image configs (i + 1) (-1) - i))
      with (S (Z.to_nat (initializer.matchingConfig ConfiguredImage image configs (i + 1) (-1)
                         - (i + 1)))) by lia.
    done.
Qed.

Lemma matchingConfig_not_found image builderConfigs i :
  0 ≤ i →
  initializer.matchingConfig ConfiguredImage image builderConfigs i (-1) = -1 →
  length (initializer.configuredFor ConfiguredImage image builderConfigs) ≠ 1%nat.
Proof.
  revert i. unfold initializer.configuredFor.
  induction builderConfigs as [|config configs IH]; intros i Hi; simpl; [done|].
  destruct (String.eqb image (ConfiguredImage config)) eqn:Hmatch; simpl.
  - rewrite matchingConfig_held by lia. unfold initializer.configuredFor.
    destruct (List.filter _ configs); simpl; [lia | done].
  - apply IH. lia.
Qed.

Lemma configuredFor_sound image builderConfigs builder :
  builder ∈ initializer.configuredFor ConfiguredImage image builderConfigs →
  builder ∈ builderConfigs ∧ ConfiguredImage builder = image.
Proof.
  unfold initializer.configuredFor. intros Hin.
  apply list_elem_of_In, filter_In in Hin as [Hin Hmatch].
  split; [by apply list_elem_of_In|]. symmetry. by apply String.eqb_eq.
Qed.

Lemma configuredFor_Permutation image (l1 l2 : list InitBuilder) :
  l1 ≡ₚ l2 →
  initializer.configuredFor ConfiguredImage image l1
  ≡ₚ initializer.configuredFor ConfiguredImage image l2.
Proof.
  unfold initializer.configuredFor.
  induction 1 as [|x l1 l2 _ IH|x y l|l1 l2 l3 _ IH1 _ IH2]; simpl.
  - done.
  - destruct (String.eqb image (ConfiguredImage x)); [by constructor | done].
  - destruct (String.eqb image (ConfiguredImage x)), (String.eqb image (ConfiguredImage y));
      try done. apply perm_swap.
  - by etrans.
Qed.

(** X19: the inner loop selects a builder exactly when one and only one
    of the builders is configured for the image, and then its index is the
    place of that builder in the list; with no such builder, or with
    several, it answers [-1]. *)
Theorem matchingConfig_selects_the_only_configured_builder image builderConfigs :
  (initializer.matchingConfig ConfiguredImage image builderConfigs 0 (-1) ≠ -1
   ↔ length (initializer.configuredFor ConfiguredImage image builderConfigs) = 1%nat)
  ∧ (initializer.matchingConfig ConfiguredImage image builderConfigs 0 (-1) ≠ -1 →
     ∃ builder,
       builderConfigs
         !! Z.to_nat (initializer.matchingConfig ConfiguredImage image builderConfigs 0 (-1))
       = Some builder
       ∧ ConfiguredImage builder = image
       ∧ initializer.configuredFor ConfiguredImage image builderConfigs = [builder]).
Proof.
  split; [split|].
  - intros Hfound.
    destruct (matchingConfig_found image builderConfigs 0 ltac:(lia) Hfound)
      as (builder & _ & _ & ->). done.
  - intros Hone Hnone.
    by apply (matchingConfig_not_found image builderConfigs 0 ltac:(lia)) in Hnone.
  - intros Hfound.
    destruct (matchingConfig_found image builderConfigs 0 ltac:(lia) Hfound)
      as (builder & _ & Hat & Hone).
    exists builder. rewrite Z.sub_0_r in Hat. split; [done|]. split; [|done].
    apply (configuredFor_sound image builderConfigs). rewrite Hone. by left.
Qed.

(** The outer loop: it never indexes out of range, and what it adds to
    its three results. *)
Lemma autoSelectBuilders_from_inv builderConfigs images pairs unresolvedImages :
  ∃ pairs' rest unresolved',
    initializer.autoSelectBuilders_from ConfiguredImage builderConfigs images pairs
      unresolvedImages
    = Some (pairs ++ pairs', rest, unresolvedImages ++ unresolved')
    ∧ map initializer.Builder pairs' ++ rest ≡ₚ builderConfigs
    ∧ map initializer.ImageName pairs' ++ unresolved' ≡ₚ images
    ∧ Forall (λ p, ConfiguredImage (initializer.Builder p) = initializer.ImageName p) pairs'
    ∧ map initializer.ImageName pairs' `sublist_of` images
    ∧ unresolved' `sublist_of` images
    ∧ (∀ image, image ∈ images →
         initializer.configuredFor ConfiguredImage image builderConfigs = [] →
         image ∈ unresolved').
Proof.
  revert builderConfigs pairs unresolvedImages.
  induction images as [|image images IH]; intros configs pairs unresolved; simpl.
  - exists [], configs, []. rewrite !app_nil_r.
    repeat split; try done; intros image Hin; by apply elem_of_nil in Hin.
  - destruct (Z.eqb_spec (initializer.matchingConfig ConfiguredImage image configs 0 (-1)) (-1))
      as [Hnone|Hfound]; simpl.
    + destruct (IH configs pairs (unresolved ++ [image]))
        as (pairs' & rest & unresolved' & -> & Hconfigs & Himages & Hsound & Hsub1 & Hsub2
            & Hmiss).
      exists pairs', rest, (image :: unresolved'). rewrite <- app_assoc. simpl.
      split; [done|]. split; [done|]. split.
      { rewrite <- Himages. symmetry. apply Permutation_middle. }
      split; [done|]. split; [by apply sublist_cons|]. split; [by apply sublist_skip|].
      intros image' Hin Hunconfigured. apply elem_of_cons in Hin as [->|Hin]; [by left|].
      right. by apply Hmiss.
    + destruct (matchingConfig_found image configs 0 ltac:(lia) Hfound)
        as (builder & Hle & Hat & Hone).
      rewrite Z.sub_0_r in Hat. rewrite Hat.
      replace (Z.to_nat (initializer.matchingConfig ConfiguredImage image configs 0 (-1) + 1))
        with (S (Z.to_nat (initializer.matchingConfig ConfiguredImage image configs 0 (-1))))
        by lia.
      set (r := Z.to_nat (initializer.matchingConfig ConfiguredImage image configs 0 (-1)))
        in *.
      assert (Hperm : builder :: (take r configs ++ drop (S r) configs) ≡ₚ configs).
      { rewrite <- (take_drop_middle configs r builder Hat) at 3. apply Permutation_middle. }
      destruct (IH (take r configs ++ drop (S r) configs)
                   (pairs ++ [{| initializer.ImageName := image;
                                 initializer.Builder := builder |}]) unresolved)
        as (pairs' & rest & unresolved' & -> & Hconfigs & Himages & Hsound & Hsub1 & Hsub2
            & Hmiss).
      exists ({| initializer.ImageName := image; initializer.Builder := builder |} :: pairs'),
             rest, unresolved'.
      rewrite <- app_assoc. simpl.
      split; [done|]. split; [by rewrite Hconfigs|]. split; [by rewrite Himages|].
      split.
      { constructor; [|done]. simpl.
        apply (configuredFor_sound image configs). rewrite Hone. by left. }
      split; [by apply sublist_skip|]. split; [by apply sublist_cons|].
      intros image' Hin Hunconfigured. apply elem_of_cons in Hin as [->|Hin].
      * by rewrite Hone in Hunconfigured.
      * apply Hmiss; [done|].
        pose proof (configuredFor_Permutation image' _ _ Hperm) as Hfilter.
        rewrite Hunconfigured in Hfilter. apply Permutation_nil_r in Hfilter.
        unfold initializer.configuredFor in Hfilter |- *. simpl in Hfilter.
        by destruct (String.eqb image' (ConfiguredImage builder)).
Qed.

(** X20: [autoSelectBuilders] never indexes a builder out of range, and
    nothing is lost or made up: the builders it paired together with those
    it hands back are the builders it was given, and the images it paired
    together with the unresolved ones are the images it was given. *)
Theorem autoSelectBuilders_conserves_builders_and_images builderConfigs images :
  ∃ pairs rest unresolvedImages,
    initializer.autoSelectBuilders ConfiguredImage builderConfigs images
    = Some (pairs, rest, unresolvedImages)
    ∧ map initializer.Builder pairs ++ rest ≡ₚ builderConfigs
    ∧ map initializer.ImageName pairs ++ unresolvedImages ≡ₚ images.
Proof.
  unfold initializer.autoSelectBuilders.
  destruct (autoSelectBuilders_from_inv builderConfigs images [] [])
    as (pairs & rest & unresolved & Hrun & Hconfigs & Himages & _).
  by exists pairs, rest, unresolved.
Qed.

(** X21: every pair is sound and the order of the images is kept: the
    builder of a pair is configured for the image of the pair, and both the
    paired images and the unresolved ones come in the order of the images
    given. *)
Theorem autoSelectBuilders_pairs_are_sound_and_ordered builderConfigs images
    pairs rest unresolvedImages :
  initializer.autoSelectBuilders ConfiguredImage builderConfigs images
  = Some (pairs, rest, unresolvedImages) →
  Forall (λ p, ConfiguredImage (initializer.Builder p) = initializer.ImageName p) pairs
  ∧ map initializer.ImageName pairs `sublist_of` images
  ∧ unresolvedImages `sublist_of` images.
Proof.
  unfold initializer.autoSelectBuilders.
  destruct (autoSelectBuilders_from_inv builderConfigs images [] [])
    as (pairs' & rest' & unresolved' & -> & _ & _ & Hsound & Hsub1 & Hsub2 & _).
  by intros [= <- _ <-].
Qed.

(** X22: an image for which no builder is configured is never paired: it
    is among the unresolved images. *)
Theorem autoSelectBuilders_leaves_unconfigured_images_unresolved builderConfigs images
    pairs rest unresolvedImages image :
  initializer.autoSelectBuilders ConfiguredImage builderConfigs images
  = Some (pairs, rest, unresolvedImages) →
  image ∈ images →
  (∀ builder, builder ∈ builderConfigs → ConfiguredImage builder ≠ image) →
  image ∈ unresolvedImages ∧ image ∉ map initializer.ImageName pairs.
Proof.
  unfold initializer.autoSelectBuilders.
  destruct (autoSelectBuilders_from_inv builderConfigs images [] [])
    as (pairs' & rest' & unresolved' & -> & Hconfigs & _ & Hsound & _ & _ & Hmiss).
  intros [= <- _ <-] Hin Hnone. simpl. split.
  - apply Hmiss; [done|].
    destruct (initializer.configuredFor ConfiguredImage image builderConfigs)
      as [|builder l] eqn:Hfilter; [done|].
    destruct (configuredFor_sound image builderConfigs builder) as [Hb Himage].
    { rewrite Hfilter. by left. }
    by destruct (Hnone builder Hb).
  - intros Hpaired. apply list_elem_of_fmap in Hpaired as (p & -> & Hp).
    rewrite Forall_forall in Hsound. apply (Hnone (initializer.Builder p)).
    + rewrite <- Hconfigs. apply elem_of_app. left. apply list_elem_of_fmap. by exists p.
    + by apply Hsound.
Qed.

Local Close Scope Z_scope.

(** [strings.Split] on a string without the separator, and on two such
    strings with the separator between them. *)
Lemma rev_app_rev_app (p q r : string) :
  String.rev_app (String.rev_app p q) r = String.rev_app q (p +:+ r).
Proof.
  revert q r. induction p as [|c p IH]; intros q r; simpl; [done|].
  rewrite IH. simpl. clear IH.
  revert r. induction q as [|d q IHq]; intros r; simpl; [done|]. done.
Qed.


Lemma string_app_empty_r (s : string) : s +:+ "" = s.
Proof.
  induction s as [|c s IH]; [done|].
  change (String c (s +:+ "") = String c s). by rewrite IH.
Qed.

Lemma rev_rev_app (p : string) : String.rev (String.rev_app p "") = p.
Proof. unfold String.rev. by rewrite rev_app_rev_app, string_app_empty_r. Qed.

Lemma SplitAcc_lacks sep p s cur :
  initializer.lacks sep p = true →
  strings.SplitAcc sep (p +:+ s) cur = strings.SplitAcc sep s (String.rev_app p cur).
Proof.
  revert cur. induction p as [|c p IH]; intros cur; simpl; [done|].
  destruct (Ascii.eqb c sep); simpl; [done | apply IH].
Qed.

Lemma Split_lacks sep s :
  initializer.lacks sep s = true → strings.Split s sep = [s].
Proof.
  intros Hs. unfold strings.Split.
  rewrite <- (string_app_empty_r s) at 1. rewrite (SplitAcc_lacks sep s "" "" Hs). simpl.
  by rewrite rev_rev_app.
Qed.

Lemma Split_pair sep p i :
  initializer.lacks sep p = true → initializer.lacks sep i = true →
  strings.Split (p +:+ String sep "" +:+ i) sep = [p; i].
Proof.
  intros Hp Hi. unfold strings.Split. change (String sep "" +:+ i) with (String sep i).
  rewrite (SplitAcc_lacks sep p (String sep i) "" Hp). simpl.
  rewrite Ascii.eqb_refl, rev_rev_app. f_equal. by apply Split_lacks.
Qed.

Lemma processCliArtifacts_from_wellformed (l : list (string * string)) pairs :
  Forall (λ pi, initializer.lacks "=" pi.1 = true ∧ initializer.lacks "=" pi.2 = true) l →
  initializer.processCliArtifacts_from docker_Docker
    (map (λ pi, pi.1 +:+ "=" +:+ pi.2) l) pairs
  = (pairs ++ map (λ pi, {| initializer.Builder := docker_Docker pi.1;
                            initializer.ImageName := pi.2 |}) l, None).
Proof.
  intros Hl. revert pairs. induction Hl as [|[p i] l [Hp Hi] _ IH]; intros pairs; simpl.
  - by rewrite app_nil_r.
  - rewrite (Split_pair "=" p i Hp Hi). rewrite IH. by rewrite <- app_assoc.
Qed.

Lemma processCliArtifacts_from_done done rest pairs :
  Forall (λ artifact, length (strings.Split artifact "=") = 2%nat) done →
  ∃ pairs', initializer.processCliArtifacts_from docker_Docker (done ++ rest) pairs
            = initializer.processCliArtifacts_from docker_Docker rest pairs'.
Proof.
  intros Hdone. revert pairs. induction Hdone as [|artifact done Hartifact _ IH]; intros pairs.
  - by exists pairs.
  - simpl. destruct (strings.Split artifact "=") as [|p0 [|p1 [|p2 parts]]];
      first [done | apply IH].
Qed.

(** X23: [processCliArtifacts] undoes the writing of an artifact as
    [path=image].  Given such strings, made from paths and image names
    that hold no [=], it returns no error and, in the same order, one pair
    for each, with the builder of the path and the image name. *)
Theorem processCliArtifacts_reads_back_path_and_image (l : list (string * string)) :
  Forall (λ pi, initializer.lacks "=" pi.1 = true ∧ initializer.lacks "=" pi.2 = true) l →
  initializer.processCliArtifacts docker_Docker (map (λ pi, pi.1 +:+ "=" +:+ pi.2) l)
  = (map (λ pi, {| initializer.Builder := docker_Docker pi.1;
                   initializer.ImageName := pi.2 |}) l, None).
Proof.
  intros Hl. unfold initializer.processCliArtifacts.
  by rewrite processCliArtifacts_from_wellformed.
Qed.

(** X24: an artifact that does not split at [=] into exactly two parts,
    met after artifacts that do, makes [processCliArtifacts] return an
    error that names it, and none of the pairs made so far; an artifact
    that holds no [=] at all is such an artifact. *)
Theorem processCliArtifacts_rejects_a_malformed_artifact done bad rest :
  Forall (λ artifact, length (strings.Split artifact "=") = 2%nat) done →
  length (strings.Split bad "=") ≠ 2%nat ∨ initializer.lacks "=" bad = true →
  initializer.processCliArtifacts docker_Docker (done ++ bad :: rest)
  = ([], Some (errors_New ("malformed artifact provided: " +:+ bad))).
Proof.
  intros Hdone Hbad. unfold initializer.processCliArtifacts.
  destruct (processCliArtifacts_from_done done (bad :: rest) [] Hdone) as [pairs' ->].
  simpl.
  assert (Hlen : length (strings.Split bad "=") ≠ 2%nat).
  { destruct Hbad as [Hlen | Hlacks]; [done|]. by rewrite (Split_lacks "=" bad Hlacks). }
  by destruct (strings.Split bad "=") as [|p0 [|p1 [|p2 parts]]].
Qed.

End BuilderFacts.

(** ** More worked examples *)

Lemma latestTag_of_merged_builds_witness :
  (∃ b, b ∈ [{| build.ImageName := "gcr.io/app"; build.Tag := "gcr.io/app:v2" |}]
        ∧ build.ImageName b = "gcr.io/app")
  ∧ latestTag "gcr.io/app"
      (MergeWithPreviousBuilds
         [{| build.ImageName := "gcr.io/app"; build.Tag := "gcr.io/app:v2" |}] Demo.builds)
    = "gcr.io/app:v2"
  ∧ latestTag "gcr.io/other"
      (MergeWithPreviousBuilds
         [{| build.ImageName := "gcr.io/app"; build.Tag := "gcr.io/app:v2" |}] Demo.builds)
    = "gcr.io/other:v7".
Proof.
  assert (Hbuilt : ∃ b, b ∈ [{| build.ImageName := "gcr.io/app";
                                build.Tag := "gcr.io/app:v2" |}]
                        ∧ build.ImageName b = "gcr.io/app").
  { eexists. split; [left | reflexivity]. }
  split; [exact Hbuilt|]. split.
  - apply (proj1 (latestTag_of_merged_builds "gcr.io/app"
                    [{| build.ImageName := "gcr.io/app"; build.Tag := "gcr.io/app:v2" |}]
                    Demo.builds) Hbuilt).
  - apply (proj2 (latestTag_of_merged_builds "gcr.io/other"
                    [{| build.ImageName := "gcr.io/app"; build.Tag := "gcr.io/app:v2" |}]
                    Demo.builds)).
    resolve.
Defined.

Lemma MergeWithPreviousBuilds_keeps_image_names_distinct_witness :
  NoDup ["gcr.io/app"; "gcr.io/db"]
  ∧ NoDup ["gcr.io/other"; "gcr.io/app"]
  ∧ NoDup (map build.ImageName
             (MergeWithPreviousBuilds
                [{| build.ImageName := "gcr.io/app"; build.Tag := "gcr.io/app:v2" |};
                 {| build.ImageName := "gcr.io/db"; build.Tag := "gcr.io/db:v1" |}]
                [{| build.ImageName := "gcr.io/other"; build.Tag := "gcr.io/other:v7" |};
                 {| build.ImageName := "gcr.io/app"; build.Tag := "gcr.io/app:v1" |}])).
Proof.
  assert (H1 : NoDup ["gcr.io/app"; "gcr.io/db"]).
  { apply (bool_decide_unpack _). vm_compute. exact I. }
  assert (H2 : NoDup ["gcr.io/other"; "gcr.io/app"]).
  { apply (bool_decide_unpack _). vm_compute. exact I. }
  split; [exact H1|]. split; [exact H2|].
  apply (MergeWithPreviousBuilds_keeps_image_names_distinct
           [{| build.ImageName := "gcr.io/app"; build.Tag := "gcr.io/app:v2" |};
            {| build.ImageName := "gcr.io/db"; build.Tag := "gcr.io/db:v1" |}]
           [{| build.ImageName := "gcr.io/other"; build.Tag := "gcr.io/other:v7" |};
            {| build.ImageName := "gcr.io/app"; build.Tag := "gcr.io/app:v1" |}]
           H1 H2).
Defined.

Lemma latestTag_is_the_tag_of_a_build_witness :
  latestTag "gcr.io/app" Demo.builds ≠ ""
  ∧ ∃ b, b ∈ Demo.builds ∧ build.ImageName b = "gcr.io/app"
         ∧ build.Tag b = latestTag "gcr.io/app" Demo.builds.
Proof.
  split; [evaluate|].
  apply (latestTag_is_the_tag_of_a_build "gcr.io/app" Demo.builds). evaluate.
Defined.

Lemma intersect_maps_exactly_the_changed_paths_witness :
  intersect "workspace" "/home/app" [Demo.jsRule; Demo.anyRule]
            ["workspace/src/a/b.js"; "workspace/src/c.js"]
  = (Some {[ "workspace/src/a/b.js" := ["/app/a/b.js"; "/home/app/dist/src/a/b.js"];
             "workspace/src/c.js" := ["/app/c.js"; "/home/app/dist/src/c.js"] ]}, None)
  ∧ dom ({[ "workspace/src/a/b.js" := ["/app/a/b.js"; "/home/app/dist/src/a/b.js"];
            "workspace/src/c.js" := ["/app/c.js"; "/home/app/dist/src/c.js"] ]} : syncMap)
    = list_to_set ["workspace/src/a/b.js"; "workspace/src/c.js"].
Proof.
  assert (Hrun : intersect "workspace" "/home/app" [Demo.jsRule; Demo.anyRule]
                   ["workspace/src/a/b.js"; "workspace/src/c.js"]
                 = (Some {[ "workspace/src/a/b.js"
                              := ["/app/a/b.js"; "/home/app/dist/src/a/b.js"];
                            "workspace/src/c.js"
                              := ["/app/c.js"; "/home/app/dist/src/c.js"] ]}, None)).
  { evaluate. }
  split; [exact Hrun|].
  exact (proj1 (proj2 (intersect_maps_exactly_the_changed_paths (H := Demo.externals)
                         _ _ _ _ _ _ Hrun))).
Defined.

Lemma intersect_does_not_depend_on_the_order_of_the_paths_witness :
  Forall (resolves "workspace" "/home/app" [Demo.jsRule])
         ["workspace/src/a/b.js"; "workspace/src/c.js"]
  ∧ ∃ m,
      intersect "workspace" "/home/app" [Demo.jsRule]
                ["workspace/src/a/b.js"; "workspace/src/c.js"] = (Some m, None)
      ∧ intersect "workspace" "/home/app" [Demo.jsRule]
                  ["workspace/src/c.js"; "workspace/src/a/b.js"; "workspace/src/c.js"]
        = (Some m, None).
Proof.
  assert (Hall : Forall (resolves "workspace" "/home/app" [Demo.jsRule])
                        ["workspace/src/a/b.js"; "workspace/src/c.js"]).
  { resolve. }
  split; [exact Hall|].
  apply (intersect_does_not_depend_on_the_order_of_the_paths (H := Demo.externals)
           "workspace" "/home/app" [Demo.jsRule]
           ["workspace/src/a/b.js"; "workspace/src/c.js"]
           ["workspace/src/c.js"; "workspace/src/a/b.js"; "workspace/src/c.js"] Hall).
  intros f. rewrite !elem_of_cons, !elem_of_nil. tauto.
Defined.

Lemma intersect_reports_a_path_outside_the_workspace_witness :
  filepath_Rel "workspace" "/srv/b.js"
  = ("", Some (errors_New "Rel: can't make /srv/b.js relative to workspace"))
  ∧ ∃ wrapped,
      intersect "workspace" "/home/app" [Demo.jsRule] ["workspace/src/a/b.js"; "/srv/b.js"]
      = (None, Some wrapped)
      ∧ Error wrapped
        = "changed file /srv/b.js can't be found relative to context workspace: Rel: can't make /srv/b.js relative to workspace".
Proof.
  split; [evaluate|].
  apply (intersect_reports_a_path_outside_the_workspace (H := Demo.externals)
           "workspace" "/home/app" [Demo.jsRule] ["workspace/src/a/b.js"] "/srv/b.js" []
           "" (errors_New "Rel: can't make /srv/b.js relative to workspace")).
  - resolve.
  - evaluate.
Defined.

Lemma NewItem_plan_covers_the_whole_batch_witness :
  ∃ w' item,
    NewItem (Demo.artifact [Demo.jsRule; Demo.htmlRule])
            (Demo.events ["workspace/src/a/b.js"] ["workspace/index.html"]
                         ["workspace/src/old.js"])
            Demo.builds ∅ []
    = (w', (Some item, None))
    ∧ Image item = "gcr.io/app:v1"
    ∧ dom (Copy item) = list_to_set ["workspace/src/a/b.js"; "workspace/index.html"]
    ∧ dom (Delete item) = list_to_set ["workspace/src/old.js"].
Proof.
  do 2 eexists. split; [vm_compute; reflexivity|].
  assert (Hplan := NewItem_plan_covers_the_whole_batch (H := Demo.externals)
            (Demo.artifact [Demo.jsRule; Demo.htmlRule])
            (Demo.events ["workspace/src/a/b.js"] ["workspace/index.html"]
                         ["workspace/src/old.js"])
            Demo.builds ∅ []).
  edestruct Hplan as (_ & _ & Himage & _ & Hcopy & Hdelete); [vm_compute; reflexivity|].
  split; [exact Himage|]. split; [exact Hcopy | exact Hdelete].
Defined.


Lemma NewItem_reports_a_failed_working_dir_lookup_witness :
  WorkingDir (Externals := Scenes.outage) "gcr.io/app:v1" ∅ []
  = ([Demo.CallWorkingDir "gcr.io/app:v1"], ("", Some (errors_New "manifest unknown")))
  ∧ NewItem (H := Scenes.outage) (Demo.artifact [Demo.jsRule])
            (Demo.events ["workspace/README.md"] [] ["/srv/b.js"]) Demo.builds ∅ []
    = ([Demo.CallWorkingDir "gcr.io/app:v1"],
       (None, Some (errors_Wrap (errors_New "manifest unknown")
                                "retrieving working dir for gcr.io/app:v1"))).
Proof.
  split; [reflexivity|].
  apply (NewItem_reports_a_failed_working_dir_lookup (H := Scenes.outage)
           (Demo.artifact [Demo.jsRule])
           (Demo.events ["workspace/README.md"] [] ["/srv/b.js"]) Demo.builds ∅ []
           [Demo.CallWorkingDir "gcr.io/app:v1"] "" (errors_New "manifest unknown")).
  - split; evaluate.
  - evaluate.
  - reflexivity.
Defined.

Lemma matchSyncRules_destinations_are_absolute_witness :
  path.IsAbs "/home/app" = true
  ∧ Forall (λ dst, path.IsAbs dst = true)
           (fst (matchSyncRules [Demo.htmlRule; Demo.anyRule] "src/index.html" "/home/app")).
Proof.
  split; [reflexivity|].
  apply (matchSyncRules_destinations_are_absolute (H := Demo.externals)
           [Demo.htmlRule; Demo.anyRule] "src/index.html" "/home/app").
  reflexivity.
Defined.

Lemma Perform_reports_discovery_errors_witness :
  ({[ "workspace/src/a/b.js" := ["/app/a/b.js"] ]} : syncMap) ≠ ∅
  ∧ Perform (H := Scenes.outage) tt "gcr.io/app:v1"
            {[ "workspace/src/a/b.js" := ["/app/a/b.js"] ]} Demo.cmdFn
            ["default"; "kube-system"; "staging"] []
    = ([Demo.CallClient; Demo.CallPodsList "default"; Demo.CallCmdFn "web" "app";
        Demo.CallRun "tar"; Demo.CallRun "rm"; Demo.CallRun "chmod";
        Demo.CallPodsList "kube-system"],
       Some (errors_Wrap (errors_New "pods is forbidden")
                         "getting pods for namespace kube-system")).
Proof.
  split; [apply map_non_empty_singleton|].
  apply (proj2 (Perform_reports_discovery_errors (H := Scenes.outage) tt "gcr.io/app:v1"
                  {[ "workspace/src/a/b.js" := ["/app/a/b.js"] ]} Demo.cmdFn
                  ["default"; "kube-system"; "staging"] [] [Demo.CallClient] tt
                  (map_non_empty_singleton _ _))
           ["default"] "kube-system" ["staging"]
           [Demo.CallClient; Demo.CallPodsList "default"; Demo.CallCmdFn "web" "app";
            Demo.CallRun "tar"; Demo.CallRun "rm"; Demo.CallRun "chmod"]
           [Demo.CallClient; Demo.CallPodsList "default"; Demo.CallCmdFn "web" "app";
            Demo.CallRun "tar"; Demo.CallRun "rm"; Demo.CallRun "chmod";
            Demo.CallPodsList "kube-system"]
           3%Z [] (errors_New "pods is forbidden")).
  - reflexivity.
  - reflexivity.
  - evaluate.
  - reflexivity.
Defined.

Lemma Perform_fails_only_for_lack_of_effect_witness :
  (∀ ns w0, snd (snd (Pods_List (Externals := Scenes.healthy) tt ns w0)) = None)
  ∧ (∀ cmd w0, snd (snd (util_RunCmdOut (Externals := Scenes.healthy) cmd w0)) = None)
  ∧ ∃ w2,
      Perform (H := Scenes.healthy) tt "gcr.io/app:v1"
              {[ "workspace/src/a/b.js" := ["/app/a/b.js"] ]} Demo.cmdFn ["default"] []
      = (w2, None)
      ∨ Perform (H := Scenes.healthy) tt "gcr.io/app:v1"
                {[ "workspace/src/a/b.js" := ["/app/a/b.js"] ]} Demo.cmdFn ["default"] []
        = (w2, Some (errors_New "didn't sync any files")).
Proof.
  assert (Hlist : ∀ ns w0, snd (snd (Pods_List (Externals := Scenes.healthy) tt ns w0)) = None).
  { intros ns w0. reflexivity. }
  assert (Hrun : ∀ cmd w0,
            snd (snd (util_RunCmdOut (Externals := Scenes.healthy) cmd w0)) = None).
  { intros cmd w0. reflexivity. }
  split; [exact Hlist|]. split; [exact Hrun|].
  apply (Perform_fails_only_for_lack_of_effect (H := Scenes.healthy) tt "gcr.io/app:v1"
           {[ "workspace/src/a/b.js" := ["/app/a/b.js"] ]} Demo.cmdFn ["default"]
           [] [Demo.CallClient] tt eq_refl Hlist Hrun).
Defined.

Lemma Perform_cmds_counts_the_commands_run_witness :
  Perform_cmds (H := Demo.externals) ["tar"; "rm"; "chmod"] 0%Z []
  = ([Demo.CallRun "tar"; Demo.CallRun "rm"], (1%Z, Some (errors_New "exit status 1")))
  ∧ (0 ≤ 1 ≤ 0 + Z.of_nat (length ["tar"; "rm"; "chmod"]))%Z.
Proof.
  split; [reflexivity|].
  apply (Perform_cmds_counts_the_commands_run (H := Demo.externals) ["tar"; "rm"; "chmod"]
           0%Z [] [Demo.CallRun "tar"; Demo.CallRun "rm"] 1%Z
           (Some (errors_New "exit status 1"))).
  - lia.
  - vm_compute. reflexivity.
  - reflexivity.
Defined.

Lemma Perform_asks_the_generator_only_for_the_target_image_witness :
  (∀ p c w0, v1.Image c = "gcr.io/app:v1" →
     Demo.cmdFn tt p c {[ "workspace/src/a/b.js" := ["/app/a/b.js"] ]} w0
     = Scenes.cmdFnAppOnly tt p c {[ "workspace/src/a/b.js" := ["/app/a/b.js"] ]} w0)
  ∧ Perform (H := Scenes.healthy) tt "gcr.io/app:v1"
            {[ "workspace/src/a/b.js" := ["/app/a/b.js"] ]} Demo.cmdFn ["default"] []
    = Perform (H := Scenes.healthy) tt "gcr.io/app:v1"
              {[ "workspace/src/a/b.js" := ["/app/a/b.js"] ]} Scenes.cmdFnAppOnly
              ["default"] [].
Proof.
  assert (Hagree : ∀ p c w0, v1.Image c = "gcr.io/app:v1" →
            Demo.cmdFn tt p c {[ "workspace/src/a/b.js" := ["/app/a/b.js"] ]} w0
            = Scenes.cmdFnAppOnly tt p c {[ "workspace/src/a/b.js" := ["/app/a/b.js"] ]} w0).
  { intros p c w0 Himage. unfold Scenes.cmdFnAppOnly. rewrite Himage. reflexivity. }
  split; [exact Hagree|].
  apply (Perform_asks_the_generator_only_for_the_target_image (H := Scenes.healthy)
           tt "gcr.io/app:v1" {[ "workspace/src/a/b.js" := ["/app/a/b.js"] ]}
           Demo.cmdFn Scenes.cmdFnAppOnly ["default"] [] Hagree).
Defined.

Lemma matchingConfig_selects_the_only_configured_builder_witness :
  initializer.matchingConfig Scenes.configuredImage "gcr.io/db" Scenes.builders 0 (-1)
  = 1%Z
  ∧ ∃ builder,
      Scenes.builders
        !! Z.to_nat (initializer.matchingConfig Scenes.configuredImage "gcr.io/db"
                       Scenes.builders 0 (-1))
      = Some builder
      ∧ Scenes.configuredImage builder = "gcr.io/db"
      ∧ initializer.configuredFor Scenes.configuredImage "gcr.io/db" Scenes.builders
        = [builder].
Proof.
  split; [reflexivity|].
  apply (proj2 (matchingConfig_selects_the_only_configured_builder
                  Scenes.configuredImage "gcr.io/db" Scenes.builders)).
  vm_compute. discriminate.
Defined.

Lemma autoSelectBuilders_pairs_are_sound_and_ordered_witness :
  initializer.autoSelectBuilders Scenes.configuredImage Scenes.builders
    ["gcr.io/db"; "gcr.io/cache"; "gcr.io/app"]
  = Some ([{| initializer.Builder := ("db/Dockerfile", "gcr.io/db");
              initializer.ImageName := "gcr.io/db" |}],
          [("web/Dockerfile", "gcr.io/app"); ("api/Dockerfile", "gcr.io/app");
           ("Dockerfile", "")],
          ["gcr.io/cache"; "gcr.io/app"])
  ∧ ["gcr.io/cache"; "gcr.io/app"] `sublist_of` ["gcr.io/db"; "gcr.io/cache"; "gcr.io/app"].
Proof.
  assert (Hrun : initializer.autoSelectBuilders Scenes.configuredImage Scenes.builders
                   ["gcr.io/db"; "gcr.io/cache"; "gcr.io/app"]
                 = Some ([{| initializer.Builder := ("db/Dockerfile", "gcr.io/db");
                             initializer.ImageName := "gcr.io/db" |}],
                         [("web/Dockerfile", "gcr.io/app"); ("api/Dockerfile", "gcr.io/app");
                          ("Dockerfile", "")],
                         ["gcr.io/cache"; "gcr.io/app"])).
  { vm_compute. reflexivity. }
  split; [exact Hrun|].
  exact (proj2 (proj2 (autoSelectBuilders_pairs_are_sound_and_ordered
                         Scenes.configuredImage _ _ _ _ _ Hrun))).
Defined.

Lemma autoSelectBuilders_leaves_unconfigured_images_unresolved_witness :
  (∀ builder, builder ∈ Scenes.builders → Scenes.configuredImage builder ≠ "gcr.io/cache")
  ∧ "gcr.io/cache" ∈ ["gcr.io/cache"; "gcr.io/app"]
  ∧ "gcr.io/cache"
    ∉ map initializer.ImageName
          [{| initializer.Builder := ("db/Dockerfile", "gcr.io/db");
              initializer.ImageName := "gcr.io/db" |}].
Proof.
  assert (Hnone : ∀ builder, builder ∈ Scenes.builders →
                    Scenes.configuredImage builder ≠ "gcr.io/cache").
  { intros builder Hin. unfold Scenes.builders in Hin.
    repeat (apply elem_of_cons in Hin as [->|Hin]; [discriminate|]).
    by apply elem_of_nil in Hin. }
  split; [exact Hnone|].
  apply (autoSelectBuilders_leaves_unconfigured_images_unresolved
           Scenes.configuredImage Scenes.builders
           ["gcr.io/db"; "gcr.io/cache"; "gcr.io/app"]
           [{| initializer.Builder := ("db/Dockerfile", "gcr.io/db");
               initializer.ImageName := "gcr.io/db" |}]
           [("web/Dockerfile", "gcr.io/app"); ("api/Dockerfile", "gcr.io/app");
            ("Dockerfile", "")]
           ["gcr.io/cache"; "gcr.io/app"] "gcr.io/cache").
  - vm_compute. reflexivity.
  - right. left.
  - exact Hnone.
Defined.

Lemma processCliArtifacts_reads_back_path_and_image_witness :
  Forall (λ pi, initializer.lacks "=" pi.1 = true ∧ initializer.lacks "=" pi.2 = true)
         [("Dockerfile", "gcr.io/app"); ("db/Dockerfile", "gcr.io/db")]
  ∧ initializer.processCliArtifacts Scenes.docker
      ["Dockerfile=gcr.io/app"; "db/Dockerfile=gcr.io/db"]
    = ([{| initializer.Builder := ("Dockerfile", "");
           initializer.ImageName := "gcr.io/app" |};
        {| initializer.Builder := ("db/Dockerfile", "");
           initializer.ImageName := "gcr.io/db" |}], None).
Proof.
  assert (Hl : Forall (λ pi, initializer.lacks "=" pi.1 = true
                             ∧ initializer.lacks "=" pi.2 = true)
                      [("Dockerfile", "gcr.io/app"); ("db/Dockerfile", "gcr.io/db")]).
  { resolve. }
  split; [exact Hl|].
  exact (processCliArtifacts_reads_back_path_and_image Scenes.docker
           [("Dockerfile", "gcr.io/app"); ("db/Dockerfile", "gcr.io/db")] Hl).
Defined.

Lemma processCliArtifacts_rejects_a_malformed_artifact_witness :
  Forall (λ artifact, length (strings.Split artifact "=") = 2%nat) ["Dockerfile=gcr.io/app"]
  ∧ initializer.lacks "=" "db/Dockerfile" = true
  ∧ initializer.processCliArtifacts Scenes.docker
      ["Dockerfile=gcr.io/app"; "db/Dockerfile"; "api/Dockerfile=gcr.io/api"]
    = ([], Some (errors_New "malformed artifact provided: db/Dockerfile")).
Proof.
  assert (Hdone : Forall (λ artifact, length (strings.Split artifact "=") = 2%nat)
                         ["Dockerfile=gcr.io/app"]).
  { resolve. }
  split; [exact Hdone|]. split; [reflexivity|].
  exact (processCliArtifacts_rejects_a_malformed_artifact Scenes.docker
           ["Dockerfile=gcr.io/app"] "db/Dockerfile" ["api/Dockerfile=gcr.io/api"]
           Hdone (or_intror eq_refl)).
Defined.
